(** * AnyReverseProxy: the request mediation pipeline of [main.py]

    A shallow embedding of the proxy's handlers: the sentence trimmer,
    the stream re-framer, the completion handler with its lock, and the
    token gate of the authenticated entry point, followed by the
    properties established about them. *)

From Stdlib Require Import List NArith ZArith Bool Lia String Ascii QArith.
Import ListNotations.

Set Warnings "-register-all".
Local Close Scope Q_scope.
Local Open Scope Z_scope.

(** ** Python values *)

(** A Python [str] is a sequence of Unicode code points. *)
Definition char := N.
Definition pystr := list char.

(** An ASCII literal of the source, as a sequence of code points. *)
Definition lit (s : string) : pystr :=
  map N_of_ascii (list_ascii_of_string s).

Fixpoint pystr_eqb (a b : pystr) : bool :=
  match a, b with
  | [], [] => true
  | x :: a', y :: b' => N.eqb x y && pystr_eqb a' b'
  | _, _ => false
  end.

(** [str.isspace] on one code point: the characters [str.strip] and
    [str.rstrip] remove when called without an argument. *)
Definition is_space (c : char) : bool :=
  ((9 <=? c) && (c <=? 13) || (28 <=? c) && (c <=? 32)
   || (c =? 133) || (c =? 160) || (c =? 5760)
   || (8192 <=? c) && (c <=? 8202)
   || (c =? 8232) || (c =? 8233) || (c =? 8239) || (c =? 8287)
   || (c =? 12288))%N.

Fixpoint lstrip (s : pystr) : pystr :=
  match s with
  | [] => []
  | c :: t => if is_space c then lstrip t else s
  end.

Definition rstrip (s : pystr) : pystr := rev (lstrip (rev s)).

Definition strip (s : pystr) : pystr := lstrip (rstrip s).

(** [s.rfind(c)] for a one-character [c]: the highest index at which [c]
    occurs, [-1] when it does not occur.  [rfind_from] scans left to right
    from index [i], keeping in [found] the last match seen. *)
Fixpoint rfind_from (s : pystr) (c : char) (i found : Z) : Z :=
  match s with
  | [] => found
  | x :: t => rfind_from t c (i + 1) (if N.eqb x c then i else found)
  end.

Definition rfind (s : pystr) (c : char) : Z := rfind_from s c 0 (-1).

(** [s[:stop]] for a non-negative [stop]. *)
Definition slice_to (s : pystr) (stop : Z) : pystr := firstn (Z.to_nat stop) s.

(** ** Sentence trimmer ([trim_to_end_sentence], [auto_trim]) *)

Definition newline : char := 10%N.

(** [".!?"] followed by the ideographic full stop and the full-width
    exclamation and question marks. *)
Definition punctuation : pystr := [46; 33; 63; 12290; 65281; 65311]%N.

Definition terminators (include_newline : bool) : pystr :=
  if include_newline then punctuation ++ [newline] else punctuation.

(** One turn of the loop over the terminators, and the loop: the highest
    [rfind] result seen, starting from [-1]. *)
Definition scan_step (input_str : pystr) (last_index : Z) (ch : char) : Z :=
  let index := rfind input_str ch in
  if (index >? last_index)%Z then index else last_index.

Definition last_terminator_index (input_str : pystr) (include_newline : bool) : Z :=
  fold_left (scan_step input_str) (terminators include_newline) (-1)%Z.

Definition trim_to_end_sentence (input_str : pystr) (include_newline : bool) : pystr :=
  let last_index := last_terminator_index input_str include_newline in
  if negb (last_index =? -1)%Z
  then rstrip (slice_to input_str (last_index + 1))
  else rstrip input_str.

Definition auto_trim (text : pystr) : pystr := trim_to_end_sentence text false.

(** Membership in the terminator set. *)
Definition is_terminator (include_newline : bool) (c : char) : bool :=
  existsb (N.eqb c) (terminators include_newline).

(** ** JSON values as Python sees them

    [request.json] is a tree of [None], [bool], numbers, [str], [list]
    and [dict]; a [dict] keeps its keys in insertion order. *)
Inductive json : Type :=
| JNull
| JBool (b : bool)
| JNum (q : Q)
| JStr (s : pystr)
| JArr (items : list json)
| JObj (fields : list (pystr * json)).

(** The exceptions the handlers can let escape. *)
Inductive pyexn : Type :=
| KeyError | IndexError | TypeError | AttributeError | OSError.

(** A computation that returns a value or raises. *)
Inductive result (A : Type) : Type :=
| Ok (a : A)
| Raise (e : pyexn).
Arguments Ok {A} a.
Arguments Raise {A} e.

Definition bind {A B : Type} (r : result A) (k : A -> result B) : result B :=
  match r with
  | Ok a => k a
  | Raise e => Raise e
  end.

Notation "x <- r ;; k" := (bind r (fun x => k))
  (at level 61, r at next level, right associativity).

(** Truth value of a string ([if s:]) and of a JSON value. *)
Definition str_truthy (s : pystr) : bool :=
  match s with [] => false | _ => true end.

Definition truthy (v : json) : bool :=
  match v with
  | JNull => false
  | JBool b => b
  | JNum q => negb (Qnum q =? 0)
  | JStr s => str_truthy s
  | JArr items => match items with [] => false | _ => true end
  | JObj fields => match fields with [] => false | _ => true end
  end.

Fixpoint dict_lookup (key : pystr) (fields : list (pystr * json)) : option json :=
  match fields with
  | [] => None
  | (k, v) :: rest => if pystr_eqb k key then Some v else dict_lookup key rest
  end.

(** [d[key] = v]: an existing key keeps its position, a new one goes last. *)
Fixpoint dict_set (key : pystr) (v : json) (fields : list (pystr * json))
  : list (pystr * json) :=
  match fields with
  | [] => [(key, v)]
  | (k, old) :: rest =>
      if pystr_eqb k key then (k, v) :: rest else (k, old) :: dict_set key v rest
  end.

(** [d.get(key, default)] on a dict. *)
Definition dict_get (key : pystr) (default : json) (fields : list (pystr * json)) : json :=
  match dict_lookup key fields with
  | Some v => v
  | None => default
  end.

(** [v[key]] with a string key. *)
Definition getitem_key (v : json) (key : pystr) : result json :=
  match v with
  | JObj fields =>
      match dict_lookup key fields with
      | Some x => Ok x
      | None => Raise KeyError
      end
  | _ => Raise TypeError
  end.

(** [v[0]]. A dict of parsed JSON has string keys only, so [0] is never one. *)
Definition getitem_first (v : json) : result json :=
  match v with
  | JArr (x :: _) => Ok x
  | JArr [] => Raise IndexError
  | JStr (c :: _) => Ok (JStr [c])
  | JStr [] => Raise IndexError
  | JObj _ => Raise KeyError
  | _ => Raise TypeError
  end.

(** [v[-1]]. *)
Definition getitem_last (v : json) : result json :=
  match v with
  | JArr [] => Raise IndexError
  | JArr items => Ok (last items JNull)
  | JStr [] => Raise IndexError
  | JStr s => Ok (JStr [last s 0%N])
  | JObj _ => Raise KeyError
  | _ => Raise TypeError
  end.

(** [v[-1] = x] on a non-empty list. *)
Definition setitem_last (v x : json) : result json :=
  match v with
  | JArr [] => Raise IndexError
  | JArr items => Ok (JArr (removelast items ++ [x]))
  | _ => Raise TypeError
  end.

(** [v[key] = x]. *)
Definition setitem_key (v : json) (key : pystr) (x : json) : result json :=
  match v with
  | JObj fields => Ok (JObj (dict_set key x fields))
  | _ => Raise TypeError
  end.

(** [v.append(x)]. *)
Definition list_append (v x : json) : result json :=
  match v with
  | JArr items => Ok (JArr (items ++ [x]))
  | _ => Raise AttributeError
  end.

(** [v == s] for a string [s]. *)
Definition eq_str (v : json) (s : pystr) : bool :=
  match v with
  | JStr t => pystr_eqb t s
  | _ => false
  end.

(** [v += s] for a string [s]: concatenation on a [str]; a [list] is
    extended with the characters of [s]; anything else cannot be added. *)
Definition iadd_str (v : json) (s : pystr) : result json :=
  match v with
  | JStr t => Ok (JStr (t ++ s))
  | JArr items => Ok (JArr (items ++ map (fun c => JStr [c]) s))
  | _ => Raise TypeError
  end.

(** [needle in hay] on strings. *)
Fixpoint starts_with (needle hay : pystr) : bool :=
  match needle, hay with
  | [], _ => true
  | x :: n', y :: h' => N.eqb x y && starts_with n' h'
  | _ :: _, [] => false
  end.

Fixpoint contains (needle hay : pystr) : bool :=
  starts_with needle hay ||
  match hay with
  | [] => false
  | _ :: h' => contains needle h'
  end.

(** [str.lower] as far as the membership tests on error texts observe it:
    ASCII capitals are folded, every other code point is kept. *)
Definition lower (s : pystr) : pystr :=
  map (fun c => if ((65 <=? c) && (c <=? 90))%N then (c + 32)%N else c) s.

(** ** Configuration and the upstream client *)

(** The module-level settings read from the environment at start-up. *)
Record config : Type := {
  API_ENDPOINT : pystr;
  API_KEY : option pystr;
  MODEL : pystr;
  PREFILL_ENABLED : bool;
  AUTO_TRIM : bool;
  ASSISTANT_PREFILL : pystr
}.

(** [not API_KEY]: the variable is unset or empty. *)
Definition api_key_missing (cfg : config) : bool :=
  match API_KEY cfg with
  | None => true
  | Some k => negb (str_truthy k)
  end.

(** The keyword arguments of [client.chat.completions.create]. *)
Record params : Type := {
  p_messages : json;
  p_model : json;
  p_temperature : json;
  p_max_tokens : json;
  p_stream : json;
  p_top_p : json
}.

(** A non-streaming completion, with the fields the handler touches. *)
Record chat_message : Type := {
  msg_role : pystr;
  msg_content : option pystr
}.

Record choice : Type := {
  choice_index : Z;
  choice_message : chat_message;
  choice_finish_reason : option pystr
}.

Record usage : Type := {
  prompt_tokens : Z;
  completion_tokens : Z;
  total_tokens : Z
}.

Record completion : Type := {
  completion_id : pystr;
  completion_created : Z;
  completion_model : pystr;
  completion_choices : list choice;
  completion_usage : option usage
}.

(** One increment of a streamed completion. *)
Record chunk_choice : Type := {
  delta_content : option pystr;
  finish_reason : option pystr
}.

Record chunk : Type := {
  chunk_id : pystr;
  chunk_created : Z;
  chunk_model : pystr;
  chunk_choices : list chunk_choice
}.

(** What iterating the upstream stream gives: the chunks it delivers and,
    when the iteration then raises, the text of the error. *)
Record stream : Type := {
  stream_chunks : list chunk;
  stream_failure : option pystr
}.

(** [client.chat.completions.create] answers a request whose [stream] is
    falsy with a completion and one whose [stream] is truthy with a stream
    of chunks; either call can raise, [inl] carrying [str(error)]. *)
Record client : Type := {
  create : params -> pystr + completion;
  create_stream : params -> pystr + stream
}.

(** [get_client]: the client for the configured endpoint and key; without
    a key it raises [ValueError], [inl] carrying its text. *)
Definition get_client (cfg : config) (up : client) : pystr + client :=
  if api_key_missing cfg
  then inl (lit "No API key found in environment variables")
  else inr up.

(** ** Responses, wire events and the handler's observable actions *)

(** A yielded record of the event stream: [EvData p] is the text
    ["data: " + json.dumps(p) + "\n\n"], [EvDone] is ["data: [DONE]\n\n"]. *)
Inductive wire_event : Type :=
| EvData (payload : json)
| EvDone.

(** What a request handler does that other requests or the caller can
    observe, in program order. [UpstreamCall] is the moment [create] is
    invoked; [UpstreamDone] the moment the exchange with the upstream is
    over (the call returned or raised, or the stream was exhausted, failed
    or was abandoned). *)
Inductive action : Type :=
| Acquire
| Release
| UpstreamCall (p : params)
| UpstreamChunk (c : chunk)
| UpstreamDone
| Yield (e : wire_event).

Inductive response : Type :=
| JsonResponse (status : Z) (body : json)
| DictResponse (body : json)
| CompletionResponse (result : completion)
| StreamResponse (body : list action).

Inductive outcome : Type :=
| Returned (r : response)
| Raised (e : pyexn).

(** The status line the caller sees: a returned dict or [jsonify] result
    without a status is a 200, and Flask answers an exception that escapes
    the view with a 500. *)
Definition http_status (o : outcome) : Z :=
  match o with
  | Returned (JsonResponse status _) => status
  | Returned _ => 200
  | Raised _ => 500
  end.

Definition json_error (message : pystr) : json :=
  JObj [(lit "error", JStr message)].

Definition json_of_option_str (o : option pystr) : json :=
  match o with
  | Some s => JStr s
  | None => JNull
  end.

Definition is_quota_error (error : pystr) : bool :=
  contains (lit "429") error || contains (lit "quota") (lower error).

Definition is_unauthorized_error (error : pystr) : bool :=
  contains (lit "401") error || contains (lit "unauthorized") (lower error).

(** ** Stream re-framer ([generate_stream]) *)

(** The [except] branch: one in-band error record. *)
Definition error_event (error : pystr) : wire_event :=
  if is_quota_error error
  then EvData (json_error (lit "out of quota"))
  else EvData (json_error (lit "request failed: " ++ error)).

Definition delta_event (c : chunk) (first : chunk_choice) (content : pystr) : wire_event :=
  EvData (JObj [
    (lit "id", JStr (chunk_id c));
    (lit "object", JStr (lit "chat.completion.chunk"));
    (lit "created", JNum (inject_Z (chunk_created c)));
    (lit "model", JStr (chunk_model c));
    (lit "choices", JArr [JObj [
       (lit "index", JNum (inject_Z 0));
       (lit "delta", JObj [(lit "content", JStr content)]);
       (lit "finish_reason", json_of_option_str (finish_reason first))]])]).

(** [if chunk.choices[0].finish_reason:] *)
Definition finish_signalled (first : chunk_choice) : bool :=
  match finish_reason first with
  | Some reason => str_truthy reason
  | None => false
  end.

(** The [for chunk in stream] loop. A chunk without choices makes
    [chunk.choices[0]] raise inside the [try]. *)
Fixpoint reframe (chunks : list chunk) (failure : option pystr) : list action :=
  match chunks with
  | [] =>
      match failure with
      | None => [UpstreamDone]
      | Some error => [UpstreamDone; Yield (error_event error)]
      end
  | c :: rest =>
      UpstreamChunk c ::
      match chunk_choices c with
      | [] => [UpstreamDone; Yield (error_event (lit "list index out of range"))]
      | first :: _ =>
          match delta_content first with
          | Some content => [Yield (delta_event c first content)]
          | None => []
          end ++
          (if finish_signalled first
           then [Yield EvDone; UpstreamDone]
           else reframe rest failure)
      end
  end.

(** The generator's body, run when the response is iterated. *)
Definition generate_stream (up : client) (kwargs : params) : list action :=
  UpstreamCall kwargs ::
  match create_stream up kwargs with
  | inl error => [UpstreamDone; Yield (error_event error)]
  | inr s => reframe (stream_chunks s) (stream_failure s)
  end.

(** The records a trace yields to the caller, and the chunks it pulled. *)
Fixpoint emitted (trace : list action) : list wire_event :=
  match trace with
  | [] => []
  | Yield e :: rest => e :: emitted rest
  | _ :: rest => emitted rest
  end.

Fixpoint consumed (trace : list action) : list chunk :=
  match trace with
  | [] => []
  | UpstreamChunk c :: rest => c :: consumed rest
  | _ :: rest => consumed rest
  end.

Fixpoint upstream_calls (trace : list action) : list params :=
  match trace with
  | [] => []
  | UpstreamCall p :: rest => p :: upstream_calls rest
  | _ :: rest => upstream_calls rest
  end.

(** The first choice's [finish_reason], and whether the loop's test on it
    succeeds; a chunk without choices has neither. *)
Definition finish_of (c : chunk) : option pystr :=
  match chunk_choices c with
  | first :: _ => finish_reason first
  | [] => None
  end.

Definition signals_finish (c : chunk) : bool :=
  match chunk_choices c with
  | first :: _ => finish_signalled first
  | [] => false
  end.

(** A chunk of the data model: it has a primary choice, and its
    [finish_reason] is null or one of the non-empty reason names. *)
Definition conforming (c : chunk) : bool :=
  match chunk_choices c with
  | [] => false
  | first :: _ =>
      match finish_reason first with
      | Some reason => str_truthy reason
      | None => true
      end
  end.

(** The content-delta record of a chunk: one when its delta content is
    present, none otherwise. *)
Definition content_delta (c : chunk) : list wire_event :=
  match chunk_choices c with
  | first :: _ =>
      match delta_content first with
      | Some content => [delta_event c first content]
      | None => []
      end
  | [] => []
  end.

Definition content_deltas (chunks : list chunk) : list wire_event :=
  flat_map content_delta chunks.

Definition has_content (c : chunk) : bool :=
  match chunk_choices c with
  | first :: _ => match delta_content first with Some _ => true | None => false end
  | [] => false
  end.

(** Whether the last record of an event stream is the sentinel. *)
Definition ends_with_done (events : list wire_event) : bool :=
  match rev events with
  | EvDone :: _ => true
  | _ => false
  end.

(** A chunk with a single choice. *)
Definition simple_chunk (id : pystr) (created : Z) (model : pystr)
    (content finish : option pystr) : chunk :=
  {| chunk_id := id; chunk_created := created; chunk_model := model;
     chunk_choices := [{| delta_content := content; finish_reason := finish |}] |}.

(** A client that answers every call the same way. *)
Definition fixed_client (answer : pystr + completion) (streamed : pystr + stream) : client :=
  {| create := fun _ => answer; create_stream := fun _ => streamed |}.

(** ** Completion handler ([normal_operation]) *)

Record request : Type := {
  authorization : option pystr;   (* request.headers.get('Authorization') *)
  request_json : json             (* request.json *)
}.

(** The canned answer of the diagnostic path; [created] is [int(time.time())]. *)
Definition test_completion (cfg : config) (now : Z) : json :=
  JObj [
    (lit "id", JStr (lit "chatcmpl-test"));
    (lit "object", JStr (lit "chat.completion"));
    (lit "created", JNum (inject_Z now));
    (lit "model", JStr (MODEL cfg));
    (lit "choices", JArr [JObj [
       (lit "index", JNum (inject_Z 0));
       (lit "message", JObj [
          (lit "role", JStr (lit "assistant"));
          (lit "content", JStr (lit "TEST"))]);
       (lit "logprobs", JNull);
       (lit "finish_reason", JStr (lit "stop"))]]);
    (lit "usage", JObj [
       (lit "prompt_tokens", JNum (inject_Z 10));
       (lit "completion_tokens", JNum (inject_Z 1));
       (lit "total_tokens", JNum (inject_Z 11))])].

(** [messages and messages[0]["content"] == "Just say TEST"] *)
Definition is_test_request (messages : json) : result bool :=
  if truthy messages then
    first <- getitem_first messages ;;
    content <- getitem_key first (lit "content") ;;
    Ok (eq_str content (lit "Just say TEST"))
  else Ok false.

Definition prefill_message (cfg : config) : json :=
  JObj [(lit "content", JStr (ASSISTANT_PREFILL cfg));
        (lit "role", JStr (lit "assistant"))].

(** The body of [if PREFILL_ENABLED:], returning the list [messages] as
    it is after the in-place update. *)
Definition inject_prefill (cfg : config) (messages : json) : result json :=
  last_message <- getitem_last messages ;;
  role <- getitem_key last_message (lit "role") ;;
  if eq_str role (lit "user") then
    list_append messages (prefill_message cfg)
  else
    content <- getitem_key last_message (lit "content") ;;
    extended <- iadd_str content (newline :: ASSISTANT_PREFILL cfg) ;;
    updated <- setitem_key last_message (lit "content") extended ;;
    setitem_last messages updated.

Definition build_params (cfg : config) (fields : list (pystr * json))
    (messages is_streaming : json) : params :=
  {| p_messages := messages;
     p_model := dict_get (lit "model") (JStr (MODEL cfg)) fields;
     p_temperature := dict_get (lit "temperature") (JNum (9 # 10)) fields;
     p_max_tokens := dict_get (lit "max_tokens") (JNum (inject_Z 2048)) fields;
     p_stream := is_streaming;
     p_top_p := dict_get (lit "top_p") (JNum (9 # 10)) fields |}.

(** The [except Exception] branch of the handler. *)
Definition error_response (error : pystr) : response :=
  if is_quota_error error then
    JsonResponse 429 (JObj [(lit "status", JBool false);
                            (lit "error", JStr (lit "out of quota"))])
  else if is_unauthorized_error error then
    JsonResponse 401 (JObj [(lit "status", JBool false);
                            (lit "error", JStr (lit "Unauthorized - check your API key"))])
  else JsonResponse 500 (json_error error).

(** [result["choices"][0]["message"]["content"] = auto_trim(...)]; a content
    of [None] has no [rfind], which the handler's [except] then reports. *)
Definition trim_first_choice (result : completion) : pystr + completion :=
  match completion_choices result with
  | [] => inr result
  | first :: others =>
      match msg_content (choice_message first) with
      | None => inl (lit "'NoneType' object has no attribute 'rfind'")
      | Some text =>
          let message := {| msg_role := msg_role (choice_message first);
                            msg_content := Some (auto_trim text) |} in
          let first' := {| choice_index := choice_index first;
                           choice_message := message;
                           choice_finish_reason := choice_finish_reason first |} in
          inr {| completion_id := completion_id result;
                 completion_created := completion_created result;
                 completion_model := completion_model result;
                 completion_choices := first' :: others;
                 completion_usage := completion_usage result |}
      end
  end.

(** The non-streaming branch of the [try] block. *)
Definition complete (cfg : config) (up : client) (kwargs : params)
  : list action * outcome :=
  ([UpstreamCall kwargs; UpstreamDone],
   match create up kwargs with
   | inl error => Returned (error_response error)
   | inr result =>
       if AUTO_TRIM cfg then
         match trim_first_choice result with
         | inl error => Returned (error_response error)
         | inr trimmed => Returned (CompletionResponse trimmed)
         end
       else Returned (CompletionResponse result)
   end).

(** What runs inside [with completion_lock:]. The generator handed to
    [Response] is only created here: its body is the response's, to be run
    by whoever iterates the response. [request.json] is a dict once
    [request.json["messages"]] has succeeded, and the in-place update of
    [messages] touches no other key of it. *)
Definition locked_section (cfg : config) (up : client) (now : Z) (req : request)
  : list action * outcome :=
  if negb (truthy (request_json req)) then
    ([], Returned (JsonResponse 400 (JObj [(lit "error", JBool true)])))
  else
    match request_json req with
    | JObj fields =>
        match dict_lookup (lit "messages") fields with
        | None => ([], Raised KeyError)
        | Some messages =>
            match is_test_request messages with
            | Raise e => ([], Raised e)
            | Ok true => ([], Returned (DictResponse (test_completion cfg now)))
            | Ok false =>
                if api_key_missing cfg then
                  ([], Returned (JsonResponse 401
                         (json_error (lit "No API key found in environment variables"))))
                else
                  match (if PREFILL_ENABLED cfg
                         then inject_prefill cfg messages
                         else Ok messages) with
                  | Raise e => ([], Raised e)
                  | Ok shaped =>
                      let is_streaming := dict_get (lit "stream") (JBool false) fields in
                      let kwargs := build_params cfg fields shaped is_streaming in
                      match get_client cfg up with
                      | inl error => ([], Returned (error_response error))
                      | inr client =>
                          if truthy is_streaming then
                            ([], Returned (StreamResponse (generate_stream client kwargs)))
                          else complete cfg client kwargs
                      end
                  end
            end
        end
    | _ => ([], Raised TypeError)
    end.

(** [with completion_lock:] acquires on entry and releases on every exit. *)
Definition with_lock (section : list action * outcome) : list action * outcome :=
  (Acquire :: fst section ++ [Release], snd section).

Definition normal_operation (cfg : config) (up : client) (now : Z) (req : request)
  : list action * outcome :=
  with_lock (locked_section cfg up now req).

(** ** Token gate ([generate], route [/chat/completions]) *)

(** The state of [whitelist_token.txt] when it is opened. *)
Inductive whitelist_file : Type :=
| FileMissing                     (* open raises FileNotFoundError *)
| FileUnreadable                  (* open raises another OSError *)
| FileText (content : pystr).

(** Iterating a text file: a line ends after ["\n"], ["\r"] or ["\r\n"],
    each read as ["\n"]; a last line without terminator is still a line.
    [line] is the part of the current line already read. *)
Fixpoint lines_from (line rest : pystr) : list pystr :=
  match rest with
  | [] => match line with [] => [] | _ => [line] end
  | c :: rest' =>
      if N.eqb c 10 then (line ++ [newline]) :: lines_from [] rest'
      else if N.eqb c 13 then
        (line ++ [newline]) ::
        lines_from [] (match rest' with
                       | d :: rest'' => if N.eqb d 10 then rest'' else rest'
                       | [] => rest'
                       end)
      else lines_from (line ++ [c]) rest'
  end.

Definition file_lines (content : pystr) : list pystr := lines_from [] content.

(** [{line.strip() for line in f if line.strip()}] *)
Definition allowed_tokens (content : pystr) : list pystr :=
  map strip (filter (fun line => str_truthy (strip line)) (file_lines content)).

Definition token_in (token : pystr) (tokens : list pystr) : bool :=
  existsb (pystr_eqb token) tokens.

(** The checks before [return normal_operation(request)]: [Some o] when
    the view ends there with [o], [None] when the request is let through. *)
Definition token_gate (file : whitelist_file) (user_token : option pystr) : option outcome :=
  match user_token with
  | None => Some (Returned (JsonResponse 401 (json_error (lit "No API key provided"))))
  | Some token =>
      if negb (str_truthy token) then
        Some (Returned (JsonResponse 401 (json_error (lit "No API key provided"))))
      else
        match file with
        | FileMissing =>
            Some (Returned (JsonResponse 500
                    (json_error (lit "Server misconfiguration: whitelist file missing"))))
        | FileUnreadable => Some (Raised OSError)
        | FileText content =>
            if negb (token_in token (allowed_tokens content)) then
              Some (Returned (JsonResponse 401
                      (json_error (lit "Unauthorized - invalid API key"))))
            else None
        end
  end.

Definition generate (cfg : config) (up : client) (now : Z) (file : whitelist_file)
    (req : request) : list action * outcome :=
  match token_gate file (authorization req) with
  | Some o => ([], o)
  | None => normal_operation cfg up now req
  end.

(** [normal_generate], route [/]: no gate. *)
Definition normal_generate (cfg : config) (up : client) (now : Z) (req : request)
  : list action * outcome :=
  normal_operation cfg up now req.

(** ** Serving requests concurrently *)

(** The server calls the view and then iterates the body of the response
    it returned: the generator of a streaming response runs after the view
    function, and its [with] block, have been left. *)
Definition serve (handled : list action * outcome) : list action :=
  fst handled ++
  match snd handled with
  | Returned (StreamResponse body) => body
  | _ => []
  end.

Definition serve_normal (cfg : config) (up : client) (now : Z) (req : request)
  : list action :=
  serve (normal_operation cfg up now req).

(** A request thread: what it still has to do, whether it is the holder
    of [completion_lock], and whether its upstream exchange is under way. *)
Record thread : Type := {
  todo : list action;
  holds_lock : bool;
  in_flight : bool
}.

(** The process: the lock and the threads of the requests being served. *)
Record system : Type := {
  lock_held : bool;
  threads : list thread
}.

(** One action of a thread. [Acquire] cannot be taken while the lock is
    held; a thread with nothing left to do takes no step. *)
Definition step_thread (locked : bool) (t : thread) : option (bool * thread) :=
  match todo t with
  | [] => None
  | Acquire :: rest =>
      if locked then None
      else Some (true, {| todo := rest; holds_lock := true; in_flight := in_flight t |})
  | Release :: rest =>
      Some (false, {| todo := rest; holds_lock := false; in_flight := in_flight t |})
  | UpstreamCall _ :: rest =>
      Some (locked, {| todo := rest; holds_lock := holds_lock t; in_flight := true |})
  | UpstreamDone :: rest =>
      Some (locked, {| todo := rest; holds_lock := holds_lock t; in_flight := false |})
  | UpstreamChunk _ :: rest
  | Yield _ :: rest =>
      Some (locked, {| todo := rest; holds_lock := holds_lock t; in_flight := in_flight t |})
  end.

Fixpoint replace_nth (i : nat) (t : thread) (ts : list thread) : list thread :=
  match ts, i with
  | [], _ => []
  | _ :: rest, O => t :: rest
  | x :: rest, S j => x :: replace_nth j t rest
  end.

(** Thread [i] takes its next action. *)
Definition step (sys : system) (i : nat) : option system :=
  match nth_error (threads sys) i with
  | None => None
  | Some t =>
      match step_thread (lock_held sys) t with
      | None => None
      | Some (locked, t') =>
          Some {| lock_held := locked; threads := replace_nth i t' (threads sys) |}
      end
  end.

(** An interleaving: the threads named by [schedule] step in that order. *)
Fixpoint run (schedule : list nat) (sys : system) : option system :=
  match schedule with
  | [] => Some sys
  | i :: rest =>
      match step sys i with
      | None => None
      | Some sys' => run rest sys'
      end
  end.

Definition start (programs : list (list action)) : system :=
  {| lock_held := false;
     threads := map (fun p => {| todo := p; holds_lock := false; in_flight := false |})
                    programs |}.

(** The number of upstream exchanges under way. *)
Definition calls_in_flight (sys : system) : nat :=
  List.length (filter in_flight (threads sys)).

(** A program keeps its upstream exchange under the lock when every
    upstream action lies between its [Acquire] and the matching [Release]
    and no exchange is left open at a [Release].  [holding] and [flying]
    say whether the lock is held and an exchange is open where the
    program starts. *)
Fixpoint gated (holding flying : bool) (program : list action) : bool :=
  match program with
  | [] => true
  | Acquire :: rest => negb holding && gated true flying rest
  | Release :: rest => holding && negb flying && gated false false rest
  | UpstreamCall _ :: rest => holding && gated holding true rest
  | UpstreamDone :: rest => holding && gated holding false rest
  | UpstreamChunk _ :: rest => holding && gated holding flying rest
  | Yield _ :: rest => gated holding flying rest
  end.

(** The state of a thread that runs a gated program. *)
Definition thread_ok (t : thread) : Prop :=
  gated (holds_lock t) (in_flight t) (todo t) = true /\
  (in_flight t = true -> holds_lock t = true).

(** The lock is held by exactly one thread when it is held, by none
    otherwise, and every thread runs a gated program. *)
Definition serialised (sys : system) : Prop :=
  Forall thread_ok (threads sys) /\
  List.length (filter holds_lock (threads sys)) = (if lock_held sys then 1 else 0)%nat.

(** ** Sample values *)

Definition demo_config : config :=
  {| API_ENDPOINT := lit "https://openrouter.ai/api/v1";
     API_KEY := Some (lit "sk-test");
     MODEL := lit "gpt-3.5-turbo";
     PREFILL_ENABLED := true;
     AUTO_TRIM := true;
     ASSISTANT_PREFILL := lit "Here is my response:" |}.

Definition demo_params : params :=
  {| p_messages := JArr [];
     p_model := JStr (lit "gpt-3.5-turbo");
     p_temperature := JNum (9 # 10);
     p_max_tokens := JNum (inject_Z 2048);
     p_stream := JBool true;
     p_top_p := JNum (9 # 10) |}.

(** Two chunks, the second one final. *)
Definition demo_stream : stream :=
  {| stream_chunks :=
       [simple_chunk (lit "c1") 7 (lit "m") (Some (lit "a")) None;
        simple_chunk (lit "c1") 7 (lit "m") (Some (lit "b")) (Some (lit "stop"))];
     stream_failure := None |}.

Definition demo_client : client :=
  fixed_client (inl (lit "not a streaming call")) (inr demo_stream).

(** The body [{"messages": [{"role": "user", "content": "hi"}], "stream": true}]. *)
Definition streaming_request : request :=
  {| authorization := None;
     request_json :=
       JObj [(lit "messages",
              JArr [JObj [(lit "role", JStr (lit "user"));
                          (lit "content", JStr (lit "hi"))]]);
             (lit "stream", JBool true)] |}.

(** ** Status and model listing routes ([default], [model_check]) *)

(** [default], route [/]: the dict Flask serves as JSON. *)
Definition default (cfg : config) : json :=
  JObj [(lit "status", JStr (lit "online"));
        (lit "model", JStr (MODEL cfg));
        (lit "endpoint", JStr (API_ENDPOINT cfg))].

(** [model_check], route [/models].  [list_models client] is what
    [client.models.list()] followed by [model_dump()] gives: the listing,
    or [inl] with the text of the exception raised. *)
Definition model_check (cfg : config) (up : client)
    (list_models : client -> pystr + json) : response :=
  if api_key_missing cfg then
    JsonResponse 401 (json_error (lit "API key not found in environment variables"))
  else
    let failed (error : pystr) :=
      if is_unauthorized_error error then
        JsonResponse 401 (json_error (lit "Unauthorized - check your API key"))
      else if is_quota_error error then
        JsonResponse 429 (json_error (lit "Rate limit exceeded or quota reached"))
      else JsonResponse 500 (json_error (lit "Failed to fetch models: " ++ error)) in
    match get_client cfg up with
    | inl error => failed error
    | inr client =>
        match list_models client with
        | inl error => failed error
        | inr models => JsonResponse 200 models
        end
    end.

(** ** Lock discipline of a program *)

Definition is_lock_action (a : action) : bool :=
  match a with
  | Acquire | Release => true
  | _ => false
  end.

(** Every [Acquire] of the program is followed by its [Release], the
    two alternate, and the program does not end while holding the lock.
    [holding] says whether the lock is held where the program starts. *)
Fixpoint lock_balanced (holding : bool) (program : list action) : bool :=
  match program with
  | [] => negb holding
  | Acquire :: rest => negb holding && lock_balanced true rest
  | Release :: rest => holding && lock_balanced false rest
  | _ :: rest => lock_balanced holding rest
  end.

(** The lock is held exactly when one thread holds it, and every thread
    is at a point of a balanced program. *)
Definition lock_consistent (sys : system) : Prop :=
  Forall (fun t => lock_balanced (holds_lock t) (todo t) = true) (threads sys) /\
  List.length (filter holds_lock (threads sys)) = (if lock_held sys then 1 else 0)%nat.

(** All threads have run to their end. *)
Definition finished (sys : system) : bool :=
  forallb (fun t => match todo t with [] => true | _ => false end) (threads sys).

(** ** Writing a token file *)

(** The text of a file that holds [lines], each followed by [ending]. *)
Definition write_lines (ending : pystr) (lines : list pystr) : pystr :=
  flat_map (fun line => line ++ ending) lines.

(** A character that ends a line of a text file. *)
Definition is_line_end (c : char) : bool := N.eqb c 10 || N.eqb c 13.

(** ** More sample values *)

Definition plain_messages : json :=
  JArr [JObj [(lit "role", JStr (lit "user")); (lit "content", JStr (lit "hi"))]].

(** The same conversation after prefill injection under [demo_config]. *)
Definition plain_shaped : json :=
  JArr [JObj [(lit "role", JStr (lit "user")); (lit "content", JStr (lit "hi"))];
        prefill_message demo_config].

(** The body [{"messages": [{"role": "user", "content": "hi"}], "model": null}]. *)
Definition plain_fields : list (pystr * json) :=
  [(lit "messages", plain_messages); (lit "model", JNull)].

Definition plain_request : request :=
  {| authorization := None; request_json := JObj plain_fields |}.

(** A completion with one choice. *)
Definition demo_completion (content : option pystr) : completion :=
  {| completion_id := lit "chatcmpl-1";
     completion_created := 1700000000;
     completion_model := lit "gpt-3.5-turbo";
     completion_choices :=
       [{| choice_index := 0;
           choice_message := {| msg_role := lit "assistant"; msg_content := content |};
           choice_finish_reason := Some (lit "length") |}];
     completion_usage :=
       Some {| prompt_tokens := 5; completion_tokens := 7; total_tokens := 12 |} |}.

(** A token as one would write it on a line of its own: not empty, no
    blanks around it, no line end inside. *)
Definition clean_token (t : pystr) : bool :=
  str_truthy t && pystr_eqb (strip t) t && forallb (fun c => negb (is_line_end c)) t.

(** * Properties *)

(** ** Strings *)

Lemma pystr_eqb_eq (a b : pystr) : pystr_eqb a b = true <-> a = b.
Proof.
  revert b; induction a as [|x a IH]; intros [|y b]; simpl; split;
    try congruence; try reflexivity.
  - intros H. apply andb_true_iff in H as [Hx Hab].
    apply N.eqb_eq in Hx. apply IH in Hab. congruence.
  - intros H. injection H as -> ->.
    rewrite N.eqb_refl. simpl. now apply IH.
Qed.

Lemma pystr_eqb_refl (a : pystr) : pystr_eqb a a = true.
Proof. now apply pystr_eqb_eq. Qed.

Lemma lstrip_incl (s : pystr) (c : char) : In c (lstrip s) -> In c s.
Proof.
  induction s as [|x s IH]; simpl; [tauto|].
  destruct (is_space x); simpl; tauto.
Qed.

Lemma lstrip_idempotent (s : pystr) : lstrip (lstrip s) = lstrip s.
Proof.
  induction s as [|x s IH]; simpl; [reflexivity|].
  destruct (is_space x) eqn:E; [exact IH|].
  simpl. now rewrite E.
Qed.

Lemma lstrip_head (s : pystr) :
  match lstrip s with
  | [] => True
  | c :: _ => is_space c = false
  end.
Proof.
  induction s as [|x s IH]; simpl; [exact I|].
  destruct (is_space x) eqn:E; [exact IH | exact E].
Qed.

Lemma rstrip_incl (s : pystr) (c : char) : In c (rstrip s) -> In c s.
Proof.
  unfold rstrip. intros H.
  apply in_rev in H. apply lstrip_incl in H. now apply in_rev.
Qed.

Lemma rstrip_idempotent (s : pystr) : rstrip (rstrip s) = rstrip s.
Proof.
  unfold rstrip. now rewrite rev_involutive, lstrip_idempotent.
Qed.

Lemma rstrip_keeps_last (s : pystr) (c : char) :
  is_space c = false -> rstrip (s ++ [c]) = s ++ [c].
Proof.
  intros H. unfold rstrip. rewrite rev_app_distr. simpl. rewrite H.
  simpl. now rewrite rev_involutive.
Qed.

Lemma strip_nonempty_head (s : pystr) (c : char) (t : pystr) :
  strip s = c :: t -> is_space c = false.
Proof.
  unfold strip. intros H. pose proof (lstrip_head (rstrip s)) as L.
  now rewrite H in L.
Qed.

(** ** Sentence trimmer *)

Lemma rfind_from_app (a b : pystr) (c : char) (i found : Z) :
  rfind_from (a ++ b) c i found
  = rfind_from b c (i + Z.of_nat (List.length a)) (rfind_from a c i found).
Proof.
  revert i found. induction a as [|x a IH]; intros i found.
  - simpl. f_equal. lia.
  - cbn [app rfind_from List.length]. rewrite IH. f_equal. lia.
Qed.

Lemma rfind_from_absent (s : pystr) (c : char) (i found : Z) :
  ~ In c s -> rfind_from s c i found = found.
Proof.
  revert i found. induction s as [|x s IH]; intros i found H; simpl; [reflexivity|].
  destruct (N.eqb x c) eqn:E.
  - apply N.eqb_eq in E. exfalso. apply H. now left.
  - apply IH. intros K. apply H. now right.
Qed.

Lemma rfind_from_bounds (s : pystr) (c : char) (i found : Z) :
  found < i ->
  found <= rfind_from s c i found < i + Z.of_nat (List.length s).
Proof.
  revert i found. induction s as [|x s IH]; intros i found H.
  - simpl. lia.
  - cbn [rfind_from List.length]. destruct (N.eqb x c).
    + specialize (IH (i + 1) i). lia.
    + specialize (IH (i + 1) found). lia.
Qed.

Lemma rfind_bounds (s : pystr) (c : char) :
  -1 <= rfind s c < Z.of_nat (List.length s).
Proof.
  unfold rfind. pose proof (rfind_from_bounds s c 0 (-1)). lia.
Qed.

(** [rfind] on a string split at an occurrence after which [c] is absent. *)
Lemma rfind_split (pre post : pystr) (t c : char) :
  ~ In c post ->
  rfind (pre ++ t :: post) c
  = if N.eqb t c then Z.of_nat (List.length pre) else rfind pre c.
Proof.
  intros H. unfold rfind. rewrite rfind_from_app. cbn [rfind_from].
  rewrite rfind_from_absent by exact H. reflexivity.
Qed.

Lemma is_terminator_In (nl : bool) (c : char) :
  is_terminator nl c = true <-> In c (terminators nl).
Proof.
  unfold is_terminator. rewrite existsb_exists. split.
  - intros [x [Hin Heq]]. apply N.eqb_eq in Heq. now subst.
  - intros H. exists c. split; [exact H | apply N.eqb_refl].
Qed.

Lemma terminator_not_space (c : char) :
  is_terminator false c = true -> is_space c = false.
Proof.
  intros H. apply is_terminator_In in H. simpl in H.
  repeat (destruct H as [<- | H]; [reflexivity|]). contradiction.
Qed.

(** The loop keeps the maximum of its starting value and the indices seen. *)
Lemma scan_lower (s : pystr) (chars : pystr) (acc : Z) :
  acc <= fold_left (scan_step s) chars acc.
Proof.
  revert acc. induction chars as [|c chars IH]; intros acc; simpl; [lia|].
  unfold scan_step at 2. cbv zeta.
  destruct (Z.gtb_spec (rfind s c) acc) as [E|E].
  - specialize (IH (rfind s c)). lia.
  - apply IH.
Qed.

Lemma scan_upper (s : pystr) (chars : pystr) (acc m : Z) :
  acc <= m ->
  (forall c, In c chars -> rfind s c <= m) ->
  fold_left (scan_step s) chars acc <= m.
Proof.
  revert acc. induction chars as [|c chars IH]; intros acc Hacc Hall; simpl; [lia|].
  apply IH.
  - unfold scan_step.
    destruct (rfind s c >? acc); [apply Hall; now left | exact Hacc].
  - intros d Hd. apply Hall. now right.
Qed.

Lemma scan_reaches (s : pystr) (chars : pystr) (acc : Z) (c : char) :
  In c chars ->
  rfind s c <= fold_left (scan_step s) chars acc.
Proof.
  revert acc. induction chars as [|d chars IH]; intros acc Hin; [contradiction|].
  simpl. destruct Hin as [-> | Hin].
  - unfold scan_step at 2. cbv zeta.
    destruct (Z.gtb_spec (rfind s c) acc) as [E|E].
    + apply scan_lower.
    + pose proof (scan_lower s chars acc). lia.
  - now apply IH.
Qed.

Lemma last_terminator_index_split (nl : bool) (pre post : pystr) (t : char) :
  is_terminator nl t = true ->
  (forall c, In c post -> is_terminator nl c = false) ->
  last_terminator_index (pre ++ t :: post) nl = Z.of_nat (List.length pre).
Proof.
  intros Ht Hpost. unfold last_terminator_index.
  assert (Hno : forall c, In c (terminators nl) -> ~ In c post).
  { intros c Hc Hin. apply Hpost in Hin.
    apply is_terminator_In in Hc. congruence. }
  apply Z.le_antisymm.
  - apply scan_upper; [lia|].
    intros c Hc. rewrite rfind_split by now apply Hno.
    destruct (N.eqb t c); [lia|]. pose proof (rfind_bounds pre c). lia.
  - apply is_terminator_In in Ht.
    pose proof (scan_reaches (pre ++ t :: post) (terminators nl) (-1) t Ht) as H.
    rewrite rfind_split in H by now apply Hno.
    now rewrite N.eqb_refl in H.
Qed.

Lemma last_terminator_index_none (nl : bool) (s : pystr) :
  (forall c, In c s -> is_terminator nl c = false) ->
  last_terminator_index s nl = -1.
Proof.
  intros H. unfold last_terminator_index. apply Z.le_antisymm.
  - apply scan_upper; [lia|]. intros c Hc.
    unfold rfind. rewrite rfind_from_absent; [lia|].
    intros Hin. apply H in Hin. apply is_terminator_In in Hc. congruence.
  - apply scan_lower.
Qed.

Lemma slice_to_split (pre post : pystr) (t : char) :
  slice_to (pre ++ t :: post) (Z.of_nat (List.length pre) + 1) = pre ++ [t].
Proof.
  unfold slice_to.
  replace (Z.to_nat (Z.of_nat (List.length pre) + 1)) with (List.length pre + 1)%nat by lia.
  rewrite firstn_app.
  replace (List.length pre + 1 - List.length pre)%nat with 1%nat by lia.
  rewrite firstn_all2 by lia. reflexivity.
Qed.

Lemma trim_split (nl : bool) (pre post : pystr) (t : char) :
  is_terminator nl t = true ->
  (forall c, In c post -> is_terminator nl c = false) ->
  trim_to_end_sentence (pre ++ t :: post) nl = rstrip (pre ++ [t]).
Proof.
  intros Ht Hpost. unfold trim_to_end_sentence.
  rewrite (last_terminator_index_split nl pre post t Ht Hpost).
  replace (Z.of_nat (List.length pre) =? -1) with false by (symmetry; apply Z.eqb_neq; lia).
  simpl negb. cbv iota. now rewrite slice_to_split.
Qed.

Lemma trim_none (nl : bool) (s : pystr) :
  (forall c, In c s -> is_terminator nl c = false) ->
  trim_to_end_sentence s nl = rstrip s.
Proof.
  intros H. unfold trim_to_end_sentence.
  now rewrite (last_terminator_index_none nl s H).
Qed.

(** Every string either has no terminator or splits at its last one. *)
Lemma last_terminator_cases (nl : bool) (s : pystr) :
  (forall c, In c s -> is_terminator nl c = false) \/
  (exists pre t post,
      s = pre ++ t :: post /\ is_terminator nl t = true /\
      (forall c, In c post -> is_terminator nl c = false)).
Proof.
  induction s as [|x s IH].
  - left. intros c [].
  - destruct IH as [Hnone | [pre [t [post [-> [Ht Hpost]]]]]].
    + destruct (is_terminator nl x) eqn:E.
      * right. exists [], x, s. auto.
      * left. intros c [<- | Hin]; auto.
    + right. exists (x :: pre), t, post. auto.
Qed.

(** C8 (amended): the trimmer returns the prefix of [s] through the last
    occurrence of a terminator (['.'], ['!'], ['?'], their full-width
    forms, and the newline when [include_newline] is set), with trailing
    whitespace removed, and [s] with trailing whitespace removed when no
    terminator occurs.  So ["Hello. World"] gives ["Hello."], a string
    without terminator only loses its trailing blanks, ["A? B! C"] gives
    ["A? B!"] (the text after the last terminator is cut), and
    ["Line one\nLine two"] with newlines included gives ["Line one"]. *)
Theorem trim_to_end_sentence_spec :
  (forall (include_newline : bool) (pre post : pystr) (t : char),
      is_terminator include_newline t = true ->
      (forall c, In c post -> is_terminator include_newline c = false) ->
      trim_to_end_sentence (pre ++ t :: post) include_newline = rstrip (pre ++ [t]))
  /\ (forall (include_newline : bool) (s : pystr),
      (forall c, In c s -> is_terminator include_newline c = false) ->
      trim_to_end_sentence s include_newline = rstrip s)
  /\ trim_to_end_sentence (lit "Hello. World") false = lit "Hello."
  /\ trim_to_end_sentence (lit "No terminator here  ") false = lit "No terminator here"
  /\ trim_to_end_sentence (lit "A? B! C") false = lit "A? B!"
  /\ trim_to_end_sentence (lit "Line one" ++ newline :: lit "Line two") true
     = lit "Line one".
Proof.
  split; [exact trim_split|].
  split; [exact trim_none|].
  repeat split; reflexivity.
Qed.

(** The general part of C8 applied to ["Hello. World"], split at its full stop. *)
Lemma trim_to_end_sentence_spec_witness :
  trim_to_end_sentence (lit "Hello" ++ 46%N :: lit " World") false
  = rstrip (lit "Hello" ++ [46%N]).
Proof.
  apply (proj1 trim_to_end_sentence_spec false (lit "Hello") (lit " World") 46%N).
  - reflexivity.
  - intros c Hin. simpl in Hin.
    repeat (destruct Hin as [<- | Hin]; [reflexivity|]). contradiction.
Defined.

(** C8 as stated fails on its own example: ["A? B! C"] is not kept whole. *)
Lemma trim_cuts_after_last_terminator :
  trim_to_end_sentence (lit "A? B! C") false <> lit "A? B! C".
Proof. vm_compute. discriminate. Qed.

(** C9 (amended): with the default [include_newline = False], the only
    way [auto_trim] calls it, the trimmer is idempotent. *)
Theorem trim_idempotent (s : pystr) :
  trim_to_end_sentence (trim_to_end_sentence s false) false
  = trim_to_end_sentence s false.
Proof.
  destruct (last_terminator_cases false s)
    as [Hnone | [pre [t [post [-> [Ht Hpost]]]]]].
  - rewrite (trim_none false s Hnone).
    rewrite trim_none; [apply rstrip_idempotent|].
    intros c Hin. apply Hnone. now apply rstrip_incl.
  - rewrite (trim_split false pre post t Ht Hpost).
    rewrite (rstrip_keeps_last pre t (terminator_not_space t Ht)).
    rewrite (trim_split false pre [] t Ht) by (intros c []).
    apply rstrip_keeps_last, terminator_not_space, Ht.
Qed.

(** C9 as stated fails when the newline is a terminator: the first pass
    cuts ["A. B\nC"] at the newline and strips it, the second cuts at the
    full stop. *)
Lemma trim_not_idempotent_with_newline :
  trim_to_end_sentence
    (trim_to_end_sentence (lit "A. B" ++ newline :: lit "C") true) true
  <> trim_to_end_sentence (lit "A. B" ++ newline :: lit "C") true.
Proof. vm_compute. discriminate. Qed.

(** ** Stream re-framer *)

Lemma emitted_app (a b : list action) : emitted (a ++ b) = emitted a ++ emitted b.
Proof.
  induction a as [|x a IH]; [reflexivity|].
  destruct x; simpl; now rewrite IH.
Qed.

Lemma consumed_app (a b : list action) : consumed (a ++ b) = consumed a ++ consumed b.
Proof.
  induction a as [|x a IH]; [reflexivity|].
  destruct x; simpl; now rewrite IH.
Qed.

Lemma upstream_calls_app (a b : list action) :
  upstream_calls (a ++ b) = upstream_calls a ++ upstream_calls b.
Proof.
  induction a as [|x a IH]; [reflexivity|].
  destruct x; simpl; now rewrite IH.
Qed.

(** One turn of the loop on a chunk that has a first choice. *)
Lemma reframe_cons (c : chunk) (rest : list chunk) (failure : option pystr) :
  chunk_choices c <> [] ->
  emitted (reframe (c :: rest) failure)
  = content_delta c ++
    (if signals_finish c then [EvDone] else emitted (reframe rest failure))
  /\ consumed (reframe (c :: rest) failure)
     = c :: (if signals_finish c then [] else consumed (reframe rest failure)).
Proof.
  intros Hc. unfold content_delta, signals_finish. cbn [reframe].
  destruct (chunk_choices c) as [|first others]; [contradiction|].
  cbn [emitted consumed]. rewrite emitted_app, consumed_app.
  destruct (delta_content first); destruct (finish_signalled first); simpl; auto.
Qed.

(** Chunks that carry no finish signal are passed through one by one. *)
Lemma reframe_passes (pre tail : list chunk) (failure : option pystr) :
  (forall x, In x pre -> chunk_choices x <> [] /\ signals_finish x = false) ->
  emitted (reframe (pre ++ tail) failure)
  = content_deltas pre ++ emitted (reframe tail failure)
  /\ consumed (reframe (pre ++ tail) failure)
     = pre ++ consumed (reframe tail failure).
Proof.
  induction pre as [|c pre IH]; intros H; [split; reflexivity|].
  destruct (H c (or_introl eq_refl)) as [Hc Hs].
  destruct IH as [IHe IHc]; [intros x Hx; apply H; now right|].
  rewrite <- app_comm_cons.
  destruct (reframe_cons c (pre ++ tail) failure Hc) as [He Hk].
  rewrite He, Hk, Hs, IHe, IHc. unfold content_deltas. simpl.
  now rewrite app_assoc.
Qed.

Lemma reframe_finish (pre rest : list chunk) (c : chunk) (failure : option pystr) :
  (forall x, In x pre -> chunk_choices x <> [] /\ signals_finish x = false) ->
  signals_finish c = true ->
  emitted (reframe (pre ++ c :: rest) failure) = content_deltas (pre ++ [c]) ++ [EvDone]
  /\ consumed (reframe (pre ++ c :: rest) failure) = pre ++ [c].
Proof.
  intros Hpre Hc.
  destruct (reframe_passes pre (c :: rest) failure Hpre) as [He Hk].
  assert (Hne : chunk_choices c <> []).
  { unfold signals_finish in Hc. destruct (chunk_choices c); congruence. }
  destruct (reframe_cons c rest failure Hne) as [He' Hk'].
  rewrite He, Hk, He', Hk', Hc. unfold content_deltas.
  rewrite flat_map_app. simpl. rewrite app_nil_r, app_assoc. auto.
Qed.

Lemma reframe_exhausted (chunks : list chunk) (failure : option pystr) :
  (forall x, In x chunks -> chunk_choices x <> [] /\ signals_finish x = false) ->
  emitted (reframe chunks failure)
  = content_deltas chunks ++
    match failure with
    | Some error => [error_event error]
    | None => []
    end
  /\ consumed (reframe chunks failure) = chunks.
Proof.
  intros H. destruct (reframe_passes chunks [] failure H) as [He Hk].
  rewrite app_nil_r in He, Hk. rewrite He, Hk.
  destruct failure; simpl; now rewrite ?app_nil_r.
Qed.

(** On conforming chunks a finish reason that is present passes the test. *)
Lemma conforming_signal (c : chunk) :
  conforming c = true ->
  chunk_choices c <> [] /\
  (signals_finish c = true <-> finish_of c <> None).
Proof.
  unfold conforming, signals_finish, finish_of, finish_signalled.
  destruct (chunk_choices c) as [|first others]; [discriminate|].
  intros H. split; [discriminate|].
  destruct (finish_reason first) as [reason|].
  - rewrite H. split; [discriminate | reflexivity].
  - split; [discriminate | congruence].
Qed.

Lemma conforming_quiet (c : chunk) :
  conforming c = true -> finish_of c = None ->
  chunk_choices c <> [] /\ signals_finish c = false.
Proof.
  intros Hc Hf. destruct (conforming_signal c Hc) as [Hne Hiff].
  split; [exact Hne|].
  destruct (signals_finish c); [|reflexivity].
  exfalso. now apply (proj1 Hiff eq_refl).
Qed.

Lemma error_event_not_done (error : pystr) : error_event error <> EvDone.
Proof. unfold error_event. destruct (is_quota_error error); discriminate. Qed.

Lemma ends_with_done_last (events : list wire_event) (e : wire_event) :
  ends_with_done (events ++ [e]) = match e with EvDone => true | _ => false end.
Proof. unfold ends_with_done. rewrite rev_app_distr. reflexivity. Qed.

Lemma content_deltas_count (chunks : list chunk) :
  List.length (content_deltas chunks) = List.length (filter has_content chunks).
Proof.
  induction chunks as [|c chunks IH]; [reflexivity|].
  unfold content_deltas in *. simpl. rewrite length_app, IH.
  unfold content_delta, has_content.
  destruct (chunk_choices c) as [|first others]; [reflexivity|].
  destruct (delta_content first); reflexivity.
Qed.

Lemma generate_stream_emitted (up : client) (kwargs : params) :
  emitted (generate_stream up kwargs)
  = match create_stream up kwargs with
    | inl error => [error_event error]
    | inr s => emitted (reframe (stream_chunks s) (stream_failure s))
    end.
Proof. unfold generate_stream. simpl. now destruct (create_stream up kwargs). Qed.

Lemma generate_stream_consumed (up : client) (kwargs : params) :
  consumed (generate_stream up kwargs)
  = match create_stream up kwargs with
    | inl error => []
    | inr s => consumed (reframe (stream_chunks s) (stream_failure s))
    end.
Proof. unfold generate_stream. simpl. now destruct (create_stream up kwargs). Qed.

Lemma reframe_calls (chunks : list chunk) (failure : option pystr) :
  upstream_calls (reframe chunks failure) = [].
Proof.
  induction chunks as [|c chunks IH]; simpl.
  - now destruct failure.
  - destruct (chunk_choices c) as [|first others]; [reflexivity|].
    rewrite upstream_calls_app.
    destruct (delta_content first); destruct (finish_signalled first);
      simpl; auto.
Qed.

(** Draining the generator makes exactly one upstream call. *)
Lemma generate_stream_calls (up : client) (kwargs : params) :
  upstream_calls (generate_stream up kwargs) = [kwargs].
Proof.
  unfold generate_stream. simpl.
  destruct (create_stream up kwargs) as [error|s]; [reflexivity|].
  now rewrite reframe_calls.
Qed.

(** Every chunk sequence either runs quietly to its end or splits at
    the first chunk that stops the loop: one with a finish signal, or one
    without choices. *)
Lemma first_stopping_chunk (chunks : list chunk) :
  (forall x, In x chunks -> chunk_choices x <> [] /\ signals_finish x = false)
  \/ (exists pre c rest,
        chunks = pre ++ c :: rest /\
        (forall x, In x pre -> chunk_choices x <> [] /\ signals_finish x = false) /\
        (signals_finish c = true \/ chunk_choices c = [])).
Proof.
  induction chunks as [|c chunks IH].
  - left. intros x [].
  - destruct (chunk_choices c) as [|first others] eqn:Hc.
    + right. exists [], c, chunks. split; [reflexivity|].
      split; [intros x [] | now right].
    + destruct (signals_finish c) eqn:Hs.
      * right. exists [], c, chunks. split; [reflexivity|].
        split; [intros x [] | now left].
      * assert (Hq : chunk_choices c <> [] /\ signals_finish c = false).
        { split; [rewrite Hc; discriminate | exact Hs]. }
        destruct IH as [Hall | [pre [d [rest [-> [Hpre Hd]]]]]].
        -- left. intros x [<- | Hx]; auto.
        -- right. exists (c :: pre), d, rest. split; [reflexivity|].
           split; [|exact Hd]. intros x [<- | Hx]; auto.
Qed.

(** The test of the loop succeeds on a reason that is present and not
    the empty string. *)
Lemma signals_finish_truthy (c : chunk) :
  signals_finish c = true <->
  exists reason, finish_of c = Some reason /\ reason <> [].
Proof.
  unfold signals_finish, finish_of, finish_signalled.
  destruct (chunk_choices c) as [|first others].
  - split; [discriminate | intros [reason [H _]]; discriminate].
  - destruct (finish_reason first) as [reason|].
    + split.
      * intros H. exists reason. split; [reflexivity|]. now destruct reason.
      * intros [r [Hr Hne]]. injection Hr as <-. now destruct reason.
    + split; [discriminate | intros [reason [H _]]; discriminate].
Qed.

Lemma content_deltas_without_done (chunks : list chunk) :
  ~ In EvDone (content_deltas chunks).
Proof.
  unfold content_deltas. rewrite in_flat_map. intros [c [_ Hin]].
  unfold content_delta in Hin.
  destruct (chunk_choices c) as [|first others]; [contradiction|].
  destruct (delta_content first) as [content|]; [|contradiction].
  destruct Hin as [H | []]. discriminate.
Qed.

(** C7 (amended): on every finite chunk sequence the re-framer emits,
    for each chunk it reads whose delta content is present, one data
    record that carries that content, and at the first chunk whose
    [finish_reason] is truthy, that is neither null nor the empty string,
    it emits the sentinel and stops: nothing follows the sentinel and the
    chunks after that one are not read.  A null or an empty reason does
    not stop it; a sequence without a stopping chunk is read to its end
    and gets no sentinel; a chunk without choices ends the stream with an
    error record.  The two chunks [a] and [b] with reason [stop] give
    exactly the two deltas and the sentinel. *)
Theorem generate_stream_reframes :
  (forall (up : client) (kwargs : params) (s : stream),
      create_stream up kwargs = inr s ->
      stream_failure s = None ->
      (exists pre c rest,
          stream_chunks s = pre ++ c :: rest /\
          (forall x, In x pre -> chunk_choices x <> [] /\ signals_finish x = false) /\
          signals_finish c = true /\
          emitted (generate_stream up kwargs) = content_deltas (pre ++ [c]) ++ [EvDone] /\
          consumed (generate_stream up kwargs) = pre ++ [c])
      \/ (exists pre c rest,
          stream_chunks s = pre ++ c :: rest /\
          (forall x, In x pre -> chunk_choices x <> [] /\ signals_finish x = false) /\
          chunk_choices c = [] /\
          emitted (generate_stream up kwargs)
          = content_deltas pre ++
            [EvData (json_error (lit "request failed: list index out of range"))] /\
          consumed (generate_stream up kwargs) = pre ++ [c])
      \/ ((forall x, In x (stream_chunks s) ->
             chunk_choices x <> [] /\ signals_finish x = false) /\
          emitted (generate_stream up kwargs) = content_deltas (stream_chunks s) /\
          consumed (generate_stream up kwargs) = stream_chunks s))
  /\ (forall (up : client) (kwargs : params) (s : stream)
             (pre rest : list chunk) (c : chunk),
      create_stream up kwargs = inr s ->
      stream_chunks s = pre ++ c :: rest ->
      (forall x, In x pre -> chunk_choices x <> [] /\ signals_finish x = false) ->
      signals_finish c = true ->
      emitted (generate_stream up kwargs) = content_deltas (pre ++ [c]) ++ [EvDone]
      /\ consumed (generate_stream up kwargs) = pre ++ [c])
  /\ (forall c : chunk,
      signals_finish c = true <->
      exists reason, finish_of c = Some reason /\ reason <> [])
  /\ (forall c : chunk,
      content_delta c
      = match chunk_choices c with
        | first :: _ =>
            match delta_content first with
            | Some content =>
                [EvData (JObj [
                   (lit "id", JStr (chunk_id c));
                   (lit "object", JStr (lit "chat.completion.chunk"));
                   (lit "created", JNum (inject_Z (chunk_created c)));
                   (lit "model", JStr (chunk_model c));
                   (lit "choices", JArr [JObj [
                      (lit "index", JNum (inject_Z 0));
                      (lit "delta", JObj [(lit "content", JStr content)]);
                      (lit "finish_reason",
                       match finish_reason first with
                       | Some reason => JStr reason
                       | None => JNull
                       end)]])])]
            | None => []
            end
        | [] => []
        end)
  /\ (forall chunks : list chunk, ~ In EvDone (content_deltas chunks))
  /\ (forall chunks : list chunk,
      List.length (content_deltas chunks) = List.length (filter has_content chunks))
  /\ (forall (up : client) (kwargs : params) (s : stream)
             (id model : pystr) (created : Z),
      create_stream up kwargs = inr s ->
      stream_chunks s
      = [simple_chunk id created model (Some (lit "a")) None;
         simple_chunk id created model (Some (lit "b")) (Some (lit "stop"))] ->
      emitted (generate_stream up kwargs)
      = [EvData (JObj [
           (lit "id", JStr id);
           (lit "object", JStr (lit "chat.completion.chunk"));
           (lit "created", JNum (inject_Z created));
           (lit "model", JStr model);
           (lit "choices", JArr [JObj [
              (lit "index", JNum (inject_Z 0));
              (lit "delta", JObj [(lit "content", JStr (lit "a"))]);
              (lit "finish_reason", JNull)]])]);
         EvData (JObj [
           (lit "id", JStr id);
           (lit "object", JStr (lit "chat.completion.chunk"));
           (lit "created", JNum (inject_Z created));
           (lit "model", JStr model);
           (lit "choices", JArr [JObj [
              (lit "index", JNum (inject_Z 0));
              (lit "delta", JObj [(lit "content", JStr (lit "b"))]);
              (lit "finish_reason", JStr (lit "stop"))]])]);
         EvDone]
      /\ List.length (emitted (generate_stream up kwargs)) = 3%nat
      /\ consumed (generate_stream up kwargs) = stream_chunks s).
Proof.
  split; [|split; [|split; [|split; [|split; [|split]]]]].
  - intros up kwargs s Hup Hfail.
    rewrite generate_stream_emitted, generate_stream_consumed, Hup.
    destruct (first_stopping_chunk (stream_chunks s))
      as [Hquiet | [pre [c [rest [Hs [Hpre [Hc | Hc]]]]]]].
    + right. right. split; [exact Hquiet|].
      destruct (reframe_exhausted (stream_chunks s) (stream_failure s) Hquiet)
        as [-> ->].
      rewrite Hfail, app_nil_r. auto.
    + left. exists pre, c, rest. rewrite Hs.
      destruct (reframe_finish pre rest c (stream_failure s) Hpre Hc) as [-> ->].
      auto.
    + right. left. exists pre, c, rest. rewrite Hs.
      destruct (reframe_passes pre (c :: rest) (stream_failure s) Hpre) as [-> ->].
      cbn [reframe]. rewrite Hc. auto.
  - intros up kwargs s pre rest c Hup Hs Hpre Hc.
    rewrite generate_stream_emitted, generate_stream_consumed, Hup, Hs.
    now apply reframe_finish.
  - exact signals_finish_truthy.
  - intros c. unfold content_delta.
    destruct (chunk_choices c) as [|first others]; [reflexivity|].
    destruct (delta_content first); [|reflexivity].
    unfold delta_event, json_of_option_str. reflexivity.
  - exact content_deltas_without_done.
  - exact content_deltas_count.
  - intros up kwargs s id model created Hup Hs.
    rewrite generate_stream_emitted, generate_stream_consumed, Hup, Hs.
    repeat split.
Qed.

(** C7 (amended) on three chunks, the second of which carries the finish
    reason: the third is never read. *)
Lemma generate_stream_reframes_witness :
  let a := simple_chunk (lit "c1") 7 (lit "m") (Some (lit "a")) None in
  let b := simple_chunk (lit "c1") 7 (lit "m") (Some (lit "b")) (Some (lit "stop")) in
  let c := simple_chunk (lit "c1") 7 (lit "m") (Some (lit "c")) None in
  let s := {| stream_chunks := [a; b; c]; stream_failure := None |} in
  let up := fixed_client (inl []) (inr s) in
  emitted (generate_stream up demo_params) = content_deltas ([a] ++ [b]) ++ [EvDone]
  /\ consumed (generate_stream up demo_params) = [a] ++ [b].
Proof.
  intros a b c s up.
  apply (proj1 (proj2 generate_stream_reframes) up demo_params s [a] [c] b).
  - reflexivity.
  - reflexivity.
  - intros x [<- | []]. split; [discriminate | reflexivity].
  - reflexivity.
Defined.

(** C7 as stated fails: a first chunk whose [finish_reason] is not null
    but the empty string gets no sentinel, and the chunk after it is
    read and passed on. *)
Lemma empty_finish_reason_reads_on :
  let a := simple_chunk (lit "c1") 7 (lit "m") (Some (lit "a")) (Some []) in
  let b := simple_chunk (lit "c1") 7 (lit "m") (Some (lit "b")) None in
  let s := {| stream_chunks := [a; b]; stream_failure := None |} in
  let up := fixed_client (inl []) (inr s) in
  finish_of a <> None
  /\ consumed (generate_stream up demo_params) = [a; b]
  /\ emitted (generate_stream up demo_params) = content_deltas [a; b]
  /\ emitted (generate_stream up demo_params) <> content_deltas [a] ++ [EvDone]
  /\ ~ In EvDone (emitted (generate_stream up demo_params)).
Proof.
  intros a b s up.
  split; [discriminate|]. split; [reflexivity|]. split; [reflexivity|].
  split; [discriminate|].
  intros [H | [H | []]]; discriminate.
Qed.

(** C2 (amended): the event stream ends with the sentinel when a chunk
    delivers a finish signal before anything fails.  When the stream ends
    through an error, raised by the call or while iterating, the error
    record is the last one and no sentinel follows it; a sequence that
    runs out without a finish signal ends without a sentinel as well. *)
Theorem generate_stream_ending :
  (forall (up : client) (kwargs : params) (s : stream)
          (pre rest : list chunk) (c : chunk),
      create_stream up kwargs = inr s ->
      stream_chunks s = pre ++ c :: rest ->
      (forall x, In x pre -> chunk_choices x <> [] /\ signals_finish x = false) ->
      signals_finish c = true ->
      ends_with_done (emitted (generate_stream up kwargs)) = true)
  /\ (forall (up : client) (kwargs : params) (error : pystr),
      create_stream up kwargs = inl error ->
      emitted (generate_stream up kwargs) = [error_event error]
      /\ ends_with_done (emitted (generate_stream up kwargs)) = false)
  /\ (forall (up : client) (kwargs : params) (s : stream) (error : pystr),
      create_stream up kwargs = inr s ->
      stream_failure s = Some error ->
      (forall x, In x (stream_chunks s) ->
                 chunk_choices x <> [] /\ signals_finish x = false) ->
      emitted (generate_stream up kwargs)
      = content_deltas (stream_chunks s) ++ [error_event error]
      /\ ends_with_done (emitted (generate_stream up kwargs)) = false)
  /\ (forall (up : client) (kwargs : params) (s : stream),
      create_stream up kwargs = inr s ->
      stream_failure s = None ->
      (forall x, In x (stream_chunks s) ->
                 chunk_choices x <> [] /\ signals_finish x = false) ->
      emitted (generate_stream up kwargs) = content_deltas (stream_chunks s)
      /\ ends_with_done (emitted (generate_stream up kwargs)) = false).
Proof.
  assert (Herr : forall events error,
             ends_with_done (events ++ [error_event error]) = false).
  { intros events error. rewrite ends_with_done_last.
    unfold error_event. now destruct (is_quota_error error). }
  assert (Hdelta : forall chunks, ends_with_done (content_deltas chunks) = false).
  { intros chunks. unfold content_deltas.
    induction chunks as [|c chunks IH] using rev_ind; [reflexivity|].
    rewrite flat_map_app. simpl. rewrite app_nil_r. unfold content_delta.
    destruct (chunk_choices c) as [|first others];
      [now rewrite app_nil_r|].
    destruct (delta_content first); [|now rewrite app_nil_r].
    now rewrite ends_with_done_last. }
  split; [|split; [|split]].
  - intros up kwargs s pre rest c Hup Hs Hpre Hc.
    rewrite generate_stream_emitted, Hup, Hs.
    destruct (reframe_finish pre rest c (stream_failure s) Hpre Hc) as [-> _].
    now rewrite ends_with_done_last.
  - intros up kwargs error Hup.
    rewrite generate_stream_emitted, Hup.
    split; [reflexivity | apply (Herr [])].
  - intros up kwargs s error Hup Hfail Hquiet.
    rewrite generate_stream_emitted, Hup.
    destruct (reframe_exhausted (stream_chunks s) (stream_failure s) Hquiet) as [-> _].
    rewrite Hfail. split; [reflexivity | apply Herr].
  - intros up kwargs s Hup Hfail Hquiet.
    rewrite generate_stream_emitted, Hup.
    destruct (reframe_exhausted (stream_chunks s) (stream_failure s) Hquiet) as [-> _].
    rewrite Hfail, app_nil_r. split; [reflexivity | apply Hdelta].
Qed.

(** The finish-signal part of C2 on one chunk that carries [stop]. *)
Lemma generate_stream_ending_witness :
  let b := simple_chunk (lit "c1") 7 (lit "m") (Some (lit "b")) (Some (lit "stop")) in
  let s := {| stream_chunks := [b]; stream_failure := None |} in
  let up := fixed_client (inl []) (inr s) in
  ends_with_done (emitted (generate_stream up demo_params)) = true.
Proof.
  intros b s up.
  apply (proj1 generate_stream_ending up demo_params s [] [] b).
  - reflexivity.
  - reflexivity.
  - intros x [].
  - reflexivity.
Defined.

(** C2 as stated fails: an upstream that delivers one chunk and then
    breaks makes the stream end with the error record, not the sentinel. *)
Lemma stream_error_ends_without_done :
  let a := simple_chunk (lit "c1") 7 (lit "m") (Some (lit "a")) None in
  let s := {| stream_chunks := [a]; stream_failure := Some (lit "connection reset") |} in
  let up := fixed_client (inl []) (inr s) in
  ends_with_done (emitted (generate_stream up demo_params)) = false.
Proof. reflexivity. Qed.

(** ** Completion handler *)

Lemma getitem_last_snoc (before : list json) (x : json) :
  getitem_last (JArr (before ++ [x])) = Ok x.
Proof.
  unfold getitem_last. rewrite <- (last_last before x JNull) at 2.
  destruct (before ++ [x]) eqn:E; [|reflexivity].
  now destruct before.
Qed.

Lemma setitem_last_snoc (before : list json) (x y : json) :
  setitem_last (JArr (before ++ [x])) y = Ok (JArr (before ++ [y])).
Proof.
  unfold setitem_last. rewrite <- (removelast_last before x) at 2.
  destruct (before ++ [x]) eqn:E; [|reflexivity].
  now destruct before.
Qed.

Lemma dict_lookup_set_same (key : pystr) (v : json) (fields : list (pystr * json)) :
  dict_lookup key (dict_set key v fields) = Some v.
Proof.
  induction fields as [|[k old] fields IH]; simpl.
  - now rewrite pystr_eqb_refl.
  - destruct (pystr_eqb k key) eqn:E; simpl; now rewrite E.
Qed.

Lemma dict_lookup_set_other (key other : pystr) (v : json) (fields : list (pystr * json)) :
  other <> key ->
  dict_lookup other (dict_set key v fields) = dict_lookup other fields.
Proof.
  intros Hne. induction fields as [|[k old] fields IH]; simpl.
  - destruct (pystr_eqb key other) eqn:E; [|reflexivity].
    apply pystr_eqb_eq in E. congruence.
  - destruct (pystr_eqb k key) eqn:E; simpl.
    + apply pystr_eqb_eq in E. subst k.
      destruct (pystr_eqb key other) eqn:E'; [|reflexivity].
      apply pystr_eqb_eq in E'. congruence.
    + now rewrite IH.
Qed.

(** The keys of a dict are the same, in the same order, after an update
    of a key it already has. *)
Lemma dict_set_keys (key : pystr) (v old : json) (fields : list (pystr * json)) :
  dict_lookup key fields = Some old ->
  map fst (dict_set key v fields) = map fst fields.
Proof.
  induction fields as [|[k x] fields IH]; simpl; [discriminate|].
  destruct (pystr_eqb k key) eqn:E; simpl; [reflexivity|].
  intros H. now rewrite IH.
Qed.

(** C5: with a non-empty message list whose last message has role
    ["user"], prefill injection appends one assistant message whose
    content is the configured prefill text; with any other role it replaces
    the content of the last message by its old content, a newline and the
    prefill text, leaving that message's other fields and all earlier
    messages as they were. *)
Theorem inject_prefill_spec (cfg : config) (before : list json)
    (fields : list (pystr * json)) (role : json) :
  dict_lookup (lit "role") fields = Some role ->
  (role = JStr (lit "user") ->
   inject_prefill cfg (JArr (before ++ [JObj fields]))
   = Ok (JArr (before ++
               [JObj fields;
                JObj [(lit "content", JStr (ASSISTANT_PREFILL cfg));
                      (lit "role", JStr (lit "assistant"))]])))
  /\ (forall content : pystr,
      role <> JStr (lit "user") ->
      dict_lookup (lit "content") fields = Some (JStr content) ->
      let extended := JStr (content ++ newline :: ASSISTANT_PREFILL cfg) in
      let updated := dict_set (lit "content") extended fields in
      inject_prefill cfg (JArr (before ++ [JObj fields]))
      = Ok (JArr (before ++ [JObj updated]))
      /\ dict_lookup (lit "content") updated = Some extended
      /\ map fst updated = map fst fields
      /\ forall key, key <> lit "content" ->
                     dict_lookup key updated = dict_lookup key fields).
Proof.
  intros Hrole. split.
  - intros ->. unfold inject_prefill.
    rewrite getitem_last_snoc. cbn [bind getitem_key]. rewrite Hrole.
    cbn [bind eq_str]. rewrite pystr_eqb_refl.
    unfold list_append, prefill_message. rewrite <- app_assoc. reflexivity.
  - intros content Hne Hcontent extended updated.
    split; [|split; [|split]].
    + unfold inject_prefill.
      rewrite getitem_last_snoc. cbn [bind getitem_key]. rewrite Hrole.
      cbn [bind].
      assert (Hneq : eq_str role (lit "user") = false).
      { destruct role; try reflexivity. simpl.
        destruct (pystr_eqb s (lit "user")) eqn:E; [|reflexivity].
        apply pystr_eqb_eq in E. congruence. }
      rewrite Hneq, Hcontent. cbn [bind iadd_str setitem_key].
      apply setitem_last_snoc.
    + apply dict_lookup_set_same.
    + exact (dict_set_keys _ _ _ fields Hcontent).
    + intros key Hkey. now apply dict_lookup_set_other.
Qed.

(** C5 on the two conversations of the specification: a single user
    message, and a last assistant message with content ["x"]. *)
Lemma inject_prefill_spec_witness :
  let user_hi := [(lit "role", JStr (lit "user")); (lit "content", JStr (lit "hi"))] in
  let assistant_x :=
    [(lit "role", JStr (lit "assistant")); (lit "content", JStr (lit "x"))] in
  inject_prefill demo_config (JArr ([] ++ [JObj user_hi]))
  = Ok (JArr ([] ++ [JObj user_hi;
                     JObj [(lit "content", JStr (lit "Here is my response:"));
                           (lit "role", JStr (lit "assistant"))]]))
  /\ inject_prefill demo_config (JArr ([JObj user_hi] ++ [JObj assistant_x]))
     = Ok (JArr ([JObj user_hi] ++
                 [JObj [(lit "role", JStr (lit "assistant"));
                        (lit "content",
                         JStr (lit "x" ++ newline :: lit "Here is my response:"))]])).
Proof.
  intros user_hi assistant_x. split.
  - apply (proj1 (inject_prefill_spec demo_config [] user_hi (JStr (lit "user")) eq_refl)).
    reflexivity.
  - apply (proj2 (inject_prefill_spec demo_config [JObj user_hi] assistant_x
                    (JStr (lit "assistant")) eq_refl) (lit "x")).
    + discriminate.
    + reflexivity.
Defined.

(** C4: a request whose first message has the content ["Just say TEST"]
    is answered inside the locked section with the canned completion,
    whose first choice says ["TEST"] and whose usage is 10/1/11; no
    upstream call is made, and nothing else in the request, the
    configuration (prefill, key, defaults) or the client changes the
    answer beyond the configured model name and the time stamp it carries. *)
Theorem test_request_is_canned (cfg : config) (up : client) (now : Z) (req : request)
    (fields : list (pystr * json)) (first : json) (rest : list json) :
  request_json req = JObj fields ->
  dict_lookup (lit "messages") fields = Some (JArr (first :: rest)) ->
  getitem_key first (lit "content") = Ok (JStr (lit "Just say TEST")) ->
  normal_operation cfg up now req
  = ([Acquire; Release], Returned (DictResponse (test_completion cfg now)))
  /\ upstream_calls (serve_normal cfg up now req) = []
  /\ (choices <- getitem_key (test_completion cfg now) (lit "choices") ;;
      choice0 <- getitem_first choices ;;
      message <- getitem_key choice0 (lit "message") ;;
      getitem_key message (lit "content")) = Ok (JStr (lit "TEST"))
  /\ (u <- getitem_key (test_completion cfg now) (lit "usage") ;;
      getitem_key u (lit "prompt_tokens")) = Ok (JNum (inject_Z 10))
  /\ (u <- getitem_key (test_completion cfg now) (lit "usage") ;;
      getitem_key u (lit "completion_tokens")) = Ok (JNum (inject_Z 1))
  /\ (u <- getitem_key (test_completion cfg now) (lit "usage") ;;
      getitem_key u (lit "total_tokens")) = Ok (JNum (inject_Z 11)).
Proof.
  intros Hjson Hmessages Hcontent.
  assert (Hop : normal_operation cfg up now req
                = ([Acquire; Release],
                   Returned (DictResponse (test_completion cfg now)))).
  { unfold normal_operation, locked_section. rewrite Hjson.
    destruct fields as [|field fields']; [discriminate|].
    cbn [truthy negb]. rewrite Hmessages.
    unfold is_test_request. cbn [truthy getitem_first bind].
    rewrite Hcontent. cbn [bind eq_str]. rewrite pystr_eqb_refl. reflexivity. }
  split; [exact Hop|].
  split; [unfold serve_normal; now rewrite Hop|].
  repeat split.
Qed.

(** C4 on a streaming request with prefill enabled and no upstream key. *)
Lemma test_request_is_canned_witness :
  let cfg := {| API_ENDPOINT := lit "https://openrouter.ai/api/v1";
                API_KEY := None; MODEL := lit "gpt-3.5-turbo";
                PREFILL_ENABLED := true; AUTO_TRIM := true;
                ASSISTANT_PREFILL := lit "Here is my response:" |} in
  let up := fixed_client (inl (lit "unreachable")) (inl (lit "unreachable")) in
  let first := JObj [(lit "role", JStr (lit "system"));
                     (lit "content", JStr (lit "Just say TEST"))] in
  let fields := [(lit "stream", JBool true);
                 (lit "messages", JArr [first; JNull]);
                 (lit "model", JStr (lit "other"))] in
  let req := {| authorization := None; request_json := JObj fields |} in
  normal_operation cfg up 1700000000 req
  = ([Acquire; Release], Returned (DictResponse (test_completion cfg 1700000000)))
  /\ upstream_calls (serve_normal cfg up 1700000000 req) = [].
Proof.
  intros cfg up first fields req.
  destruct (test_request_is_canned cfg up 1700000000 req fields first [JNull]
              eq_refl eq_refl eq_refl) as [Hop [Hcalls _]].
  split; [exact Hop | exact Hcalls].
Defined.

(** C3 (amended): a JSON object that has fields but no [messages] makes
    the handler raise [KeyError], and an empty [messages] list, with an
    upstream key configured and prefill enabled, makes it raise
    [IndexError]; both leave the handler as exceptions, after the lock is
    released and without an upstream call.  The one payload rejected by an
    explicit result is the empty (falsy) one: status 400, body
    [{"error": true}]. *)
Theorem malformed_payload_outcomes :
  (forall (cfg : config) (up : client) (now : Z) (req : request)
          (fields : list (pystr * json)),
      request_json req = JObj fields ->
      fields <> [] ->
      dict_lookup (lit "messages") fields = None ->
      normal_operation cfg up now req = ([Acquire; Release], Raised KeyError))
  /\ (forall (cfg : config) (up : client) (now : Z) (req : request)
             (fields : list (pystr * json)),
      request_json req = JObj fields ->
      dict_lookup (lit "messages") fields = Some (JArr []) ->
      api_key_missing cfg = false ->
      PREFILL_ENABLED cfg = true ->
      normal_operation cfg up now req = ([Acquire; Release], Raised IndexError))
  /\ (forall (cfg : config) (up : client) (now : Z) (req : request),
      truthy (request_json req) = false ->
      normal_operation cfg up now req
      = ([Acquire; Release],
         Returned (JsonResponse 400 (JObj [(lit "error", JBool true)])))).
Proof.
  split; [|split].
  - intros cfg up now req fields Hjson Hne Hmessages.
    unfold normal_operation, locked_section. rewrite Hjson.
    destruct fields as [|field fields']; [contradiction|].
    cbn [truthy negb]. now rewrite Hmessages.
  - intros cfg up now req fields Hjson Hmessages Hkey Hprefill.
    unfold normal_operation, locked_section. rewrite Hjson.
    destruct fields as [|field fields']; [discriminate|].
    cbn [truthy negb]. rewrite Hmessages.
    cbn [is_test_request truthy]. now rewrite Hkey, Hprefill.
  - intros cfg up now req Hfalsy.
    unfold normal_operation, locked_section. now rewrite Hfalsy.
Qed.

(** C3 (amended) on the payload [{"stream": true}]. *)
Lemma malformed_payload_outcomes_witness :
  let req := {| authorization := None;
                request_json := JObj [(lit "stream", JBool true)] |} in
  normal_operation demo_config demo_client 1700000000 req
  = ([Acquire; Release], Raised KeyError).
Proof.
  intros req.
  apply (proj1 malformed_payload_outcomes demo_config demo_client 1700000000 req
           [(lit "stream", JBool true)]).
  - reflexivity.
  - discriminate.
  - reflexivity.
Defined.

(** C3 as stated fails: a payload without [messages] gets no explicit
    result, the [KeyError] escapes. *)
Lemma missing_messages_raises :
  snd (normal_operation demo_config demo_client 1700000000
         {| authorization := None;
            request_json := JObj [(lit "stream", JBool true)] |})
  = Raised KeyError.
Proof. reflexivity. Qed.

(** An error answer is never a stream. *)
Lemma error_response_body (error : pystr) :
  match error_response error with
  | StreamResponse body => body
  | _ => []
  end = [].
Proof.
  unfold error_response.
  destruct (is_quota_error error); [reflexivity|].
  destruct (is_unauthorized_error error); reflexivity.
Qed.

(** X17: what the handler sends upstream when prefill is enabled: the
    message list as [inject_prefill] leaves it, in exactly one call. *)
Lemma normal_operation_sends_prefilled (cfg : config) (up : client) (now : Z)
    (req : request) (fields : list (pystr * json)) (messages shaped : json) :
  request_json req = JObj fields ->
  dict_lookup (lit "messages") fields = Some messages ->
  is_test_request messages = Ok false ->
  api_key_missing cfg = false ->
  PREFILL_ENABLED cfg = true ->
  inject_prefill cfg messages = Ok shaped ->
  upstream_calls (serve_normal cfg up now req)
  = [build_params cfg fields shaped (dict_get (lit "stream") (JBool false) fields)].
Proof.
  intros Hjson Hmessages Htest Hkey Hprefill Hshaped.
  unfold serve_normal, normal_operation, locked_section. rewrite Hjson.
  destruct fields as [|field fields']; [discriminate|].
  cbn [truthy negb]. unfold get_client.
  rewrite Hmessages, Htest, Hkey, Hprefill, Hshaped.
  destruct (truthy (dict_get (lit "stream") (JBool false) (field :: fields'))).
  - unfold serve, with_lock. cbn [fst snd app upstream_calls].
    apply generate_stream_calls.
  - unfold complete, serve, with_lock. cbn [fst snd].
    destruct (create up _) as [error|result];
      [now rewrite error_response_body|].
    destruct (AUTO_TRIM cfg); [|reflexivity].
    destruct (trim_first_choice result); [|reflexivity].
    now rewrite error_response_body.
Qed.

(** ** Token gate *)

(** The loaded set holds the stripped text of every line that is not blank. *)
Lemma allowed_tokens_spec (content token : pystr) :
  token_in token (allowed_tokens content) = true <->
  exists line, In line (file_lines content) /\ strip line <> [] /\ token = strip line.
Proof.
  unfold token_in, allowed_tokens. rewrite existsb_exists. split.
  - intros [t [Hin Heq]]. apply pystr_eqb_eq in Heq. subst t.
    apply in_map_iff in Hin as [line [Hstrip Hline]].
    apply filter_In in Hline as [Hline Hnonblank].
    exists line. repeat split; [exact Hline| |now symmetry].
    intros E. now rewrite E in Hnonblank.
  - intros [line [Hline [Hnonblank ->]]].
    exists (strip line). split; [|apply pystr_eqb_refl].
    apply in_map, filter_In. split; [exact Hline|].
    now destruct (strip line).
Qed.

(** C6: every call of the entry point falls in one of these cases.
    Without an [Authorization] header, or with an empty one, it answers
    401 "No API key provided", before the file is looked at.  With a
    non-empty one the list is read from the file as it is at that call,
    one token per line, blank lines dropped: a missing file gives the 500
    misconfiguration answer; a file that cannot be opened for another
    reason makes the view raise, which Flask serves as a 500; in neither
    case is the answer an auth denial or the pipeline entered; a token
    outside the loaded set gives 401 "invalid API key", and a token in it
    hands the request to [normal_operation]. *)
Theorem generate_gate (cfg : config) (up : client) (now : Z) (req : request) :
  (forall file,
      authorization req = None \/ authorization req = Some [] ->
      generate cfg up now file req
      = ([], Returned (JsonResponse 401 (json_error (lit "No API key provided")))))
  /\ (forall token,
      authorization req = Some token -> token <> [] ->
      generate cfg up now FileMissing req
      = ([], Returned (JsonResponse 500
               (json_error (lit "Server misconfiguration: whitelist file missing"))))
      /\ generate cfg up now FileUnreadable req = ([], Raised OSError)
      /\ http_status (snd (generate cfg up now FileMissing req)) = 500
      /\ http_status (snd (generate cfg up now FileUnreadable req)) = 500
      /\ (forall file body,
          file = FileMissing \/ file = FileUnreadable ->
          snd (generate cfg up now file req) <> Returned (JsonResponse 401 body))
      /\ (forall content,
          token_in token (allowed_tokens content) = false ->
          generate cfg up now (FileText content) req
          = ([], Returned (JsonResponse 401
                   (json_error (lit "Unauthorized - invalid API key")))))
      /\ (forall content,
          token_in token (allowed_tokens content) = true ->
          generate cfg up now (FileText content) req
          = normal_operation cfg up now req))
  /\ (forall content token,
      token_in token (allowed_tokens content) = true <->
      exists line,
        In line (file_lines content) /\ strip line <> [] /\ token = strip line).
Proof.
  split; [|split].
  - intros file [Hnone | Hempty]; unfold generate, token_gate.
    + now rewrite Hnone.
    + now rewrite Hempty.
  - intros token Hsome Hne. unfold generate, token_gate. rewrite Hsome.
    destruct token as [|c token]; [contradiction|]. cbn [str_truthy negb].
    split; [reflexivity|]. split; [reflexivity|].
    split; [reflexivity|]. split; [reflexivity|].
    split; [|split].
    + intros file body [-> | ->]; discriminate.
    + intros content Hout. now rewrite Hout.
    + intros content Hin. now rewrite Hin.
  - exact allowed_tokens_spec.
Qed.

(** C6 on a two-line list with a blank line between the entries: an
    empty header is refused as missing even when the file is missing, a
    listed token is let through, another one is refused, and the same
    listed token is refused at a later call, once its line is gone. *)
Lemma generate_gate_witness :
  let body := JObj [(lit "messages", JArr [])] in
  let two := lit "alpha" ++ newline :: newline :: lit "  beta " ++ [newline] in
  let one := lit "alpha" ++ [newline] in
  let req (token : string) :=
    {| authorization := Some (lit token); request_json := body |} in
  generate demo_config demo_client 0 FileMissing (req ""%string)
  = ([], Returned (JsonResponse 401 (json_error (lit "No API key provided"))))
  /\ generate demo_config demo_client 0 (FileText two) (req "beta"%string)
     = normal_operation demo_config demo_client 0 (req "beta"%string)
  /\ generate demo_config demo_client 0 (FileText two) (req "gamma"%string)
     = ([], Returned (JsonResponse 401 (json_error (lit "Unauthorized - invalid API key"))))
  /\ generate demo_config demo_client 0 (FileText one) (req "beta"%string)
     = ([], Returned (JsonResponse 401 (json_error (lit "Unauthorized - invalid API key")))).
Proof.
  intros body two one req.
  pose proof (proj1 (generate_gate demo_config demo_client 0 (req ""%string))
                FileMissing (or_intror eq_refl)) as Hempty.
  pose proof (proj1 (proj2 (generate_gate demo_config demo_client 0 (req "beta"%string)))
                (lit "beta") eq_refl) as Hbeta.
  pose proof (proj1 (proj2 (generate_gate demo_config demo_client 0 (req "gamma"%string)))
                (lit "gamma") eq_refl) as Hgamma.
  split; [exact Hempty|]. split; [|split].
  - apply Hbeta; [discriminate | reflexivity].
  - apply Hgamma; [discriminate | reflexivity].
  - apply Hbeta; [discriminate | reflexivity].
Defined.

(** C10: the gate lets a request through exactly when the file can be
    read and the header value, as sent, equals the stripped text of one of
    its non-blank lines; the value is never split or stripped of a scheme
    prefix, so ["Bearer abc"] does not match a line ["abc"] and does match
    a line ["Bearer abc"]. *)
Theorem token_gate_verbatim :
  (forall (file : whitelist_file) (header : option pystr),
      token_gate file header = None <->
      exists content token line,
        file = FileText content /\ header = Some token /\
        In line (file_lines content) /\ strip line <> [] /\ token = strip line)
  /\ (forall cfg up now file req,
      token_gate file (authorization req) = None ->
      generate cfg up now file req = normal_operation cfg up now req)
  /\ (forall cfg up now file req o,
      token_gate file (authorization req) = Some o ->
      generate cfg up now file req = ([], o))
  /\ token_gate (FileText (lit "abc" ++ [newline])) (Some (lit "Bearer abc")) <> None
  /\ token_gate (FileText (lit "abc" ++ [newline])) (Some (lit "abc")) = None
  /\ token_gate (FileText (lit "Bearer abc" ++ [newline])) (Some (lit "Bearer abc")) = None.
Proof.
  split; [|split; [|split; [|split; [|split]]]].
  - intros file header. split.
    + unfold token_gate. destruct header as [token|]; [|discriminate].
      destruct (str_truthy token); [|discriminate]. cbn [negb].
      destruct file as [| |content]; try discriminate.
      destruct (token_in token (allowed_tokens content)) eqn:E; [|discriminate].
      intros _. apply allowed_tokens_spec in E as [line H].
      now exists content, token, line.
    + intros [content [token [line [-> [-> [Hline [Hne Heq]]]]]]].
      unfold token_gate.
      assert (Hin : token_in token (allowed_tokens content) = true).
      { apply allowed_tokens_spec. now exists line. }
      rewrite Hin. subst token. now destruct (strip line).
  - intros cfg up now file req H. unfold generate. now rewrite H.
  - intros cfg up now file req o H. unfold generate. now rewrite H.
  - discriminate.
  - reflexivity.
  - reflexivity.
Qed.

(** C10 on a one-line list: the header ["abc"] matches the line
    ["  abc"] once the line is stripped, and the request is let through. *)
Lemma token_gate_verbatim_witness :
  let file := FileText (lit "  abc" ++ [newline]) in
  let req := {| authorization := Some (lit "abc"); request_json := JObj [] |} in
  generate demo_config demo_client 0 file req
  = normal_operation demo_config demo_client 0 req.
Proof.
  intros file req.
  destruct token_gate_verbatim as [Hiff [Hpass _]].
  apply Hpass, Hiff.
  exists (lit "  abc" ++ [newline]), (lit "abc"), (lit "  abc" ++ [newline]).
  repeat split.
  - now left.
  - discriminate.
Defined.

(** ** The lock and the upstream exchange *)

Lemma replace_nth_count (f : thread -> bool) (i : nat) (t t' : thread) (ts : list thread) :
  nth_error ts i = Some t ->
  (List.length (filter f (replace_nth i t' ts)) + (if f t then 1 else 0)
   = List.length (filter f ts) + (if f t' then 1 else 0))%nat.
Proof.
  revert i. induction ts as [|x ts IH]; intros [|i] H; simpl in H; try discriminate.
  - injection H as ->. simpl. destruct (f t), (f t'); simpl; lia.
  - simpl. specialize (IH i H). destruct (f x); simpl; lia.
Qed.

Lemma replace_nth_Forall (P : thread -> Prop) (i : nat) (t' : thread) (ts : list thread) :
  Forall P ts -> P t' -> Forall P (replace_nth i t' ts).
Proof.
  intros Hall Ht'. revert i. induction Hall as [|x ts Hx Hts IH]; intros i.
  - destruct i; constructor.
  - destruct i; simpl; constructor; auto.
Qed.

Lemma nth_error_Forall (P : thread -> Prop) (i : nat) (t : thread) (ts : list thread) :
  Forall P ts -> nth_error ts i = Some t -> P t.
Proof.
  intros Hall H. rewrite Forall_forall in Hall.
  apply Hall. eapply nth_error_In, H.
Qed.

(** A thread that holds the lock is counted among the holders. *)
Lemma holder_counted (i : nat) (t : thread) (ts : list thread) :
  nth_error ts i = Some t -> holds_lock t = true ->
  (1 <= List.length (filter holds_lock ts))%nat.
Proof.
  revert i. induction ts as [|x ts IH]; intros [|i] H Hh; simpl in H; try discriminate.
  - injection H as ->. simpl. rewrite Hh. simpl. lia.
  - simpl. specialize (IH i H Hh). destruct (holds_lock x); simpl; lia.
Qed.

(** Relates the holders after thread [t] was replaced to those before. *)
Ltac holders_after Hrep t Hi Hr :=
  match goal with
  | |- context [replace_nth _ ?t' ?ts] => pose proof (Hrep t t' ts Hi) as Hr
  end.

(** One step of any thread keeps the system serialised. *)
Lemma step_serialised (sys sys' : system) (i : nat) :
  serialised sys -> step sys i = Some sys' -> serialised sys'.
Proof.
  intros [Hall Hcount]. unfold step.
  destruct (nth_error (threads sys) i) as [t|] eqn:Hi; [|discriminate].
  destruct (nth_error_Forall thread_ok i t (threads sys) Hall Hi) as [Hg Hf].
  pose proof (replace_nth_count holds_lock i) as Hrep.
  unfold step_thread.
  destruct (todo t) as [|a rest] eqn:Htodo; [discriminate|].
  destruct a; cbn [gated] in Hg.
  - (* Acquire *)
    destruct (lock_held sys) eqn:Hl; [discriminate|].
    intros H. injection H as <-. apply andb_true_iff in Hg as [Hnh Hg].
    apply negb_true_iff in Hnh.
    split; cbn [threads lock_held].
    + apply replace_nth_Forall; [exact Hall|]. split; cbn; auto.
    + holders_after Hrep t Hi Hr.
      rewrite Hnh in Hr. cbn [holds_lock] in Hr. lia.
  - (* Release *)
    intros H. injection H as <-.
    apply andb_true_iff in Hg as [Hg Hrest].
    apply andb_true_iff in Hg as [Hh Hnf]. apply negb_true_iff in Hnf.
    pose proof (holder_counted i t (threads sys) Hi Hh) as Hone.
    split; cbn [threads lock_held].
    + apply replace_nth_Forall; [exact Hall|]. split; cbn.
      * now rewrite Hnf.
      * rewrite Hnf. discriminate.
    + holders_after Hrep t Hi Hr.
      rewrite Hh in Hr. cbn [holds_lock] in Hr.
      destruct (lock_held sys); lia.
  - (* UpstreamCall *)
    intros H. injection H as <-.
    apply andb_true_iff in Hg as [Hh Hrest].
    split; cbn [threads lock_held].
    + apply replace_nth_Forall; [exact Hall|]. split; cbn; auto.
    + holders_after Hrep t Hi Hr.
      cbn [holds_lock] in Hr. destruct (holds_lock t); lia.
  - (* UpstreamChunk *)
    intros H. injection H as <-.
    apply andb_true_iff in Hg as [Hh Hrest].
    split; cbn [threads lock_held].
    + apply replace_nth_Forall; [exact Hall|]. split; cbn; auto.
    + holders_after Hrep t Hi Hr.
      cbn [holds_lock] in Hr. destruct (holds_lock t); lia.
  - (* UpstreamDone *)
    intros H. injection H as <-.
    apply andb_true_iff in Hg as [Hh Hrest].
    split; cbn [threads lock_held].
    + apply replace_nth_Forall; [exact Hall|]. split; cbn; [auto | discriminate].
    + holders_after Hrep t Hi Hr.
      cbn [holds_lock] in Hr. destruct (holds_lock t); lia.
  - (* Yield *)
    intros H. injection H as <-.
    split; cbn [threads lock_held].
    + apply replace_nth_Forall; [exact Hall|]. split; cbn; auto.
    + holders_after Hrep t Hi Hr.
      cbn [holds_lock] in Hr. destruct (holds_lock t); lia.
Qed.

Lemma run_serialised (schedule : list nat) (sys sys' : system) :
  serialised sys -> run schedule sys = Some sys' -> serialised sys'.
Proof.
  revert sys. induction schedule as [|i schedule IH]; intros sys Hs; simpl.
  - intros H. now injection H as <-.
  - destruct (step sys i) as [sys1|] eqn:E; [|discriminate].
    apply IH. eapply step_serialised; eauto.
Qed.

Lemma start_serialised (programs : list (list action)) :
  forallb (gated false false) programs = true -> serialised (start programs).
Proof.
  intros H. unfold serialised, start. cbn [threads lock_held].
  induction programs as [|p programs IH]; simpl.
  - split; [constructor | reflexivity].
  - simpl in H. apply andb_true_iff in H as [Hp Hrest].
    destruct (IH Hrest) as [Hall Hcount]. split.
    + constructor; [|exact Hall]. split; cbn; [exact Hp | discriminate].
    + exact Hcount.
Qed.

Lemma serialised_in_flight (sys : system) :
  serialised sys -> (calls_in_flight sys <= 1)%nat.
Proof.
  intros [Hall Hcount]. unfold calls_in_flight.
  assert (Hle : (List.length (filter in_flight (threads sys))
                 <= List.length (filter holds_lock (threads sys)))%nat).
  { clear Hcount. induction Hall as [|t ts [_ Hf] _ IH]; [reflexivity|].
    simpl. destruct (in_flight t).
    - rewrite (Hf eq_refl). simpl. lia.
    - destruct (holds_lock t); simpl; lia. }
  destruct (lock_held sys); lia.
Qed.

(** Requests whose programs keep the upstream exchange under the lock are
    serialised: however they interleave, at most one exchange is open. *)
Lemma gated_programs_serialised (programs : list (list action))
    (schedule : list nat) (sys : system) :
  forallb (gated false false) programs = true ->
  run schedule (start programs) = Some sys ->
  (calls_in_flight sys <= 1)%nat.
Proof.
  intros Hg Hrun. apply serialised_in_flight.
  eapply run_serialised; [|exact Hrun]. now apply start_serialised.
Qed.

(** Inside the locked section the handler either makes no upstream call
    or makes the whole non-streaming call; a stream is only handed back. *)
Lemma locked_section_shape (cfg : config) (up : client) (now : Z) (req : request) :
  (fst (locked_section cfg up now req) = [] \/
   exists kwargs,
     fst (locked_section cfg up now req) = [UpstreamCall kwargs; UpstreamDone] /\
     forall body, snd (locked_section cfg up now req) <> Returned (StreamResponse body))
  /\ (forall body,
      snd (locked_section cfg up now req) = Returned (StreamResponse body) ->
      exists kwargs, body = generate_stream up kwargs).
Proof.
  unfold locked_section.
  destruct (truthy (request_json req)); cbn [negb];
    [|split; [now left | discriminate]].
  destruct (request_json req) as [| | | | |fields];
    try (split; [now left | discriminate]).
  destruct (dict_lookup (lit "messages") fields) as [messages|];
    [|split; [now left | discriminate]].
  destruct (is_test_request messages) as [[|]|e];
    try (split; [now left | discriminate]).
  unfold get_client.
  destruct (api_key_missing cfg); [split; [now left | discriminate]|].
  destruct (if PREFILL_ENABLED cfg then inject_prefill cfg messages else Ok messages)
    as [shaped|e]; [|split; [now left | discriminate]].
  destruct (truthy (dict_get (lit "stream") (JBool false) fields)).
  - split; [now left|]. intros body H. injection H as <-. eauto.
  - unfold complete. cbn [fst snd].
    assert (Herr : forall error body,
               Returned (error_response error) <> Returned (StreamResponse body)).
    { intros error body. unfold error_response.
      destruct (is_quota_error error); [discriminate|].
      destruct (is_unauthorized_error error); discriminate. }
    assert (Hnot : forall body,
               match create up (build_params cfg fields shaped
                                  (dict_get (lit "stream") (JBool false) fields)) with
               | inl error => Returned (error_response error)
               | inr result =>
                   if AUTO_TRIM cfg
                   then match trim_first_choice result with
                        | inl error => Returned (error_response error)
                        | inr trimmed => Returned (CompletionResponse trimmed)
                        end
                   else Returned (CompletionResponse result)
               end <> Returned (StreamResponse body)).
    { intros body. destruct (create up _) as [error|result]; [apply Herr|].
      destruct (AUTO_TRIM cfg); [|discriminate].
      destruct (trim_first_choice result); [apply Herr | discriminate]. }
    split.
    + right. eexists. split; [reflexivity | exact Hnot].
    + intros body H. now apply Hnot in H.
Qed.

(** A request keeps its upstream exchange under the lock exactly when it
    is not answered with a stream. *)
Lemma serve_normal_gated (cfg : config) (up : client) (now : Z) (req : request) :
  gated false false (serve_normal cfg up now req)
  = match snd (normal_operation cfg up now req) with
    | Returned (StreamResponse _) => false
    | _ => true
    end.
Proof.
  unfold serve_normal, normal_operation, serve, with_lock. cbn [fst snd].
  destruct (locked_section_shape cfg up now req) as [Hshape Hstream].
  destruct (snd (locked_section cfg up now req)) as [[status body|body|result|body]|e] eqn:Hs.
  1-3, 5: destruct Hshape as [-> | [kwargs [-> _]]]; reflexivity.
  destruct Hshape as [-> | [kwargs [_ Hno]]]; [|now elim (Hno body)].
  destruct (Hstream body eq_refl) as [kwargs ->]. reflexivity.
Qed.

(** X19: on the streaming path the view leaves the lock before the
    generator, and with it the upstream call, starts. *)
Lemma streaming_call_follows_release (cfg : config) (up : client) (now : Z)
    (req : request) (body : list action) :
  snd (normal_operation cfg up now req) = Returned (StreamResponse body) ->
  exists kwargs rest,
    serve_normal cfg up now req = Acquire :: Release :: UpstreamCall kwargs :: rest.
Proof.
  unfold serve_normal, normal_operation, serve, with_lock. cbn [fst snd].
  destruct (locked_section_shape cfg up now req) as [Hshape Hstream].
  intros Hs. rewrite Hs.
  destruct Hshape as [-> | [kwargs [_ Hno]]]; [|now elim (Hno body)].
  destruct (Hstream body Hs) as [kwargs ->].
  unfold generate_stream. simpl. eauto.
Qed.

(** X18: requests that are not answered with a stream are serialised:
    however they interleave, at most one upstream call is in flight. *)
Lemma non_streaming_requests_serialised (cfg : config) (up : client) (now : Z)
    (reqs : list request) (schedule : list nat) (sys : system) :
  (forall req body, In req reqs ->
     snd (normal_operation cfg up now req) <> Returned (StreamResponse body)) ->
  run schedule (start (map (serve_normal cfg up now) reqs)) = Some sys ->
  (calls_in_flight sys <= 1)%nat.
Proof.
  intros Hplain. apply gated_programs_serialised.
  apply forallb_forall. intros p Hp.
  apply in_map_iff in Hp as [req [<- Hreq]].
  rewrite serve_normal_gated.
  destruct (snd (normal_operation cfg up now req)) as [[| | |body]|] eqn:E;
    try reflexivity.
  now elim (Hplain req body Hreq).
Qed.

(** C1: the claim does not hold on the streaming path.  Two requests
    with [stream: true] are served; the first leaves the locked section
    and starts its upstream call, the second does the same while the
    first exchange is still open: two upstream calls are in flight, and
    the lock is free. *)
Theorem streaming_requests_overlap :
  exists schedule sys,
    run schedule
      (start [serve_normal demo_config demo_client 0 streaming_request;
              serve_normal demo_config demo_client 0 streaming_request])
    = Some sys
    /\ calls_in_flight sys = 2%nat
    /\ lock_held sys = false.
Proof.
  exists [0; 0; 0; 1; 1; 1]%nat. eexists.
  split; [vm_compute; reflexivity|]. split; reflexivity.
Qed.

(** * Further properties of the handlers *)

(** ** Sentence trimmer: what it keeps and what it removes *)

Lemma lstrip_suffix (s : pystr) :
  exists removed, s = removed ++ lstrip s /\ forallb is_space removed = true.
Proof.
  induction s as [|c s [removed [IH Hsp]]].
  - now exists [].
  - simpl. destruct (is_space c) eqn:E.
    + exists (c :: removed). simpl. rewrite E, Hsp. split; [now f_equal | reflexivity].
    + now exists [].
Qed.

Lemma rstrip_prefix (s : pystr) :
  exists removed, s = rstrip s ++ removed /\ forallb is_space removed = true.
Proof.
  destruct (lstrip_suffix (rev s)) as [removed [H Hsp]].
  exists (rev removed). split.
  - unfold rstrip. rewrite <- rev_app_distr, <- H. now rewrite rev_involutive.
  - rewrite forallb_forall in *. intros c Hc. apply Hsp. now apply in_rev.
Qed.

Lemma rstrip_last (s body : pystr) (c : char) :
  rstrip s = body ++ [c] -> is_space c = false.
Proof.
  unfold rstrip. intros H. pose proof (lstrip_head (rev s)) as L.
  apply (f_equal (@rev char)) in H. rewrite rev_involutive, rev_app_distr in H.
  simpl in H. now rewrite H in L.
Qed.

(** X1: the trimmer only cuts: its result is a prefix of its input.
    What it drops when the input holds no terminator is whitespace only. *)
Theorem trim_is_prefix (s : pystr) (include_newline : bool) :
  (exists dropped, s = trim_to_end_sentence s include_newline ++ dropped)
  /\ ((forall c, In c s -> is_terminator include_newline c = false) ->
      exists blanks,
        s = trim_to_end_sentence s include_newline ++ blanks /\
        forallb is_space blanks = true).
Proof.
  split.
  - destruct (last_terminator_cases include_newline s)
      as [Hnone | [pre [t [post [-> [Ht Hpost]]]]]].
    + rewrite (trim_none include_newline s Hnone).
      destruct (rstrip_prefix s) as [removed [H _]]. now exists removed.
    + rewrite (trim_split include_newline pre post t Ht Hpost).
      destruct (rstrip_prefix (pre ++ [t])) as [removed [H _]].
      exists (removed ++ post).
      rewrite app_assoc, <- H, <- app_assoc. reflexivity.
  - intros Hnone. rewrite (trim_none include_newline s Hnone).
    apply rstrip_prefix.
Qed.

(** The whitespace part of X1 on a string without terminator. *)
Lemma trim_is_prefix_witness :
  exists blanks,
    lit "No terminator here  "
    = trim_to_end_sentence (lit "No terminator here  ") false ++ blanks
    /\ forallb is_space blanks = true.
Proof.
  apply (proj2 (trim_is_prefix (lit "No terminator here  ") false)).
  intros c Hin. simpl in Hin.
  repeat (destruct Hin as [<- | Hin]; [reflexivity|]). contradiction.
Defined.

(** X2: whatever the input and the flag, the result of the trimmer does
    not end with a whitespace character. *)
Theorem trim_has_no_trailing_space (s body : pystr) (include_newline : bool) (c : char) :
  trim_to_end_sentence s include_newline = body ++ [c] -> is_space c = false.
Proof.
  unfold trim_to_end_sentence.
  destruct (negb (last_terminator_index s include_newline =? -1));
    apply rstrip_last.
Qed.

Lemma trim_has_no_trailing_space_witness :
  trim_to_end_sentence (lit "Hello. World  ") false = lit "Hello" ++ [46%N]
  /\ is_space 46%N = false.
Proof.
  split; [reflexivity|].
  apply (trim_has_no_trailing_space (lit "Hello. World  ") (lit "Hello") false 46%N).
  reflexivity.
Defined.

(** X3: the index the loop over the terminators ends with is [-1]
    exactly when the string holds no terminator; otherwise it is a valid
    index, the character there is a terminator and none follows it. *)
Theorem last_terminator_index_spec (s : pystr) (include_newline : bool) :
  (last_terminator_index s include_newline = -1 <->
   forall c, In c s -> is_terminator include_newline c = false)
  /\ (last_terminator_index s include_newline <> -1 ->
      exists pre t post,
        s = pre ++ t :: post /\
        last_terminator_index s include_newline = Z.of_nat (List.length pre) /\
        is_terminator include_newline t = true /\
        forall c, In c post -> is_terminator include_newline c = false).
Proof.
  destruct (last_terminator_cases include_newline s)
    as [Hnone | [pre [t [post [Hs [Ht Hpost]]]]]].
  - pose proof (last_terminator_index_none include_newline s Hnone) as H.
    split; [split; auto | congruence].
  - pose proof (last_terminator_index_split include_newline pre post t Ht Hpost) as H.
    rewrite <- Hs in H. split.
    + split; [lia|]. intros Hnone. exfalso.
      assert (Hin : In t s) by (rewrite Hs; apply in_elt).
      apply Hnone in Hin. congruence.
    + intros _. now exists pre, t, post.
Qed.

Lemma last_terminator_index_spec_witness :
  exists pre t post,
    lit "A? B! C" = pre ++ t :: post /\
    last_terminator_index (lit "A? B! C") false = Z.of_nat (List.length pre) /\
    is_terminator false t = true /\
    forall c, In c post -> is_terminator false c = false.
Proof.
  apply (proj2 (last_terminator_index_spec (lit "A? B! C") false)).
  vm_compute. discriminate.
Defined.

(** X4: with the default flag, a text that holds a terminator is cut
    right after its last one: the result is not empty and its last
    character is a terminator. *)
Theorem trim_ends_with_terminator (s : pystr) (c : char) :
  In c s -> is_terminator false c = true ->
  exists body t,
    trim_to_end_sentence s false = body ++ [t] /\ is_terminator false t = true.
Proof.
  intros Hin Hc.
  destruct (last_terminator_cases false s)
    as [Hnone | [pre [t [post [-> [Ht Hpost]]]]]].
  - apply Hnone in Hin. congruence.
  - exists pre, t. split; [|exact Ht].
    rewrite (trim_split false pre post t Ht Hpost).
    apply rstrip_keeps_last, terminator_not_space, Ht.
Qed.

Lemma trim_ends_with_terminator_witness :
  exists body t,
    trim_to_end_sentence (lit "One sentence. Incomplete cut off") false = body ++ [t]
    /\ is_terminator false t = true.
Proof.
  apply (trim_ends_with_terminator (lit "One sentence. Incomplete cut off") 46%N).
  - simpl. tauto.
  - reflexivity.
Defined.

(** ** Stream re-framer: the shape of what it yields and reads *)

Lemma content_deltas_data (chunks : list chunk) (e : wire_event) :
  In e (content_deltas chunks) -> exists payload, e = EvData payload.
Proof.
  unfold content_deltas. rewrite in_flat_map. intros [c [_ Hin]].
  unfold content_delta in Hin.
  destruct (chunk_choices c) as [|first others]; [contradiction|].
  destruct (delta_content first) as [content|]; [|contradiction].
  destruct Hin as [<- | []]. unfold delta_event. eauto.
Qed.

Lemma data_events_not_done (events : list wire_event) :
  (forall e, In e events -> exists payload, e = EvData payload) ->
  ends_with_done events = false.
Proof.
  intros H. unfold ends_with_done.
  destruct (rev events) as [|e rest] eqn:E; [reflexivity|].
  destruct (H e) as [payload ->]; [|reflexivity].
  apply in_rev. rewrite E. now left.
Qed.

(** The loop yields the deltas of the chunks it read and then at most one
    closing record; the chunks it read are the first ones of the stream. *)
Lemma reframe_shape (chunks : list chunk) (failure : option pystr) :
  (exists tail,
      emitted (reframe chunks failure)
      = content_deltas (consumed (reframe chunks failure)) ++ tail /\
      (tail = [] \/ tail = [EvDone] \/ exists error, tail = [error_event error]))
  /\ (exists unread, chunks = consumed (reframe chunks failure) ++ unread).
Proof.
  induction chunks as [|c rest [[tail [IHe IHt]] [unread IHu]]].
  - destruct failure as [error|]; (split; [|now exists []]); simpl.
    + exists [error_event error]. eauto.
    + exists []. auto.
  - destruct (chunk_choices c) as [|first others] eqn:Hc.
    + cbn [reframe]. rewrite Hc. cbn [emitted consumed]. split.
      * exists [error_event (lit "list index out of range")].
        unfold content_deltas, content_delta. simpl. rewrite Hc. eauto.
      * now exists rest.
    + assert (Hne : chunk_choices c <> []) by (rewrite Hc; discriminate).
      destruct (reframe_cons c rest failure Hne) as [-> ->].
      destruct (signals_finish c).
      * split; [|now exists rest].
        exists [EvDone]. unfold content_deltas. simpl. rewrite app_nil_r. auto.
      * split.
        -- exists tail. rewrite IHe. unfold content_deltas. simpl.
           rewrite app_assoc. auto.
        -- exists unread. simpl. now f_equal.
Qed.

(** X5: whatever the upstream does, the records of a streaming response
    are the content deltas of the chunks read, followed by at most one
    closing record, the sentinel or one error record; the sentinel never
    occurs among the deltas, so nothing follows it. *)
Theorem stream_events_shape (up : client) (kwargs : params) :
  exists tail,
    emitted (generate_stream up kwargs)
    = content_deltas (consumed (generate_stream up kwargs)) ++ tail
    /\ (tail = [] \/ tail = [EvDone] \/ exists error, tail = [error_event error])
    /\ ~ In EvDone (content_deltas (consumed (generate_stream up kwargs))).
Proof.
  assert (Hnot : forall chunks, ~ In EvDone (content_deltas chunks)).
  { intros chunks Hin. apply content_deltas_data in Hin as [payload H].
    discriminate. }
  rewrite generate_stream_emitted, generate_stream_consumed.
  destruct (create_stream up kwargs) as [error|s].
  - exists [error_event error]. repeat split; eauto.
  - destruct (reframe_shape (stream_chunks s) (stream_failure s))
      as [[tail [He Ht]] _].
    exists tail. repeat split; auto.
Qed.

(** X6: the re-framer reads the upstream chunks in order from the first
    one and never skips one: what it read is a prefix of what the upstream
    holds (nothing when the call itself fails), and it yields at most one
    record more than it read chunks. *)
Theorem stream_reads_prefix (up : client) (kwargs : params) :
  match create_stream up kwargs with
  | inl _ => consumed (generate_stream up kwargs) = []
  | inr s => exists unread,
      stream_chunks s = consumed (generate_stream up kwargs) ++ unread
  end
  /\ (List.length (emitted (generate_stream up kwargs))
      <= List.length (consumed (generate_stream up kwargs)) + 1)%nat.
Proof.
  rewrite generate_stream_emitted, generate_stream_consumed.
  destruct (create_stream up kwargs) as [error|s]; [split; simpl; auto|].
  destruct (reframe_shape (stream_chunks s) (stream_failure s))
    as [[tail [He Ht]] Hu].
  split; [exact Hu|].
  rewrite He, length_app, content_deltas_count.
  pose proof (filter_length_le has_content
                (consumed (reframe (stream_chunks s) (stream_failure s)))) as Hle.
  destruct Ht as [-> | [-> | [error ->]]]; simpl; lia.
Qed.

(** X7: a chunk that has no choices ends the stream: the records are the
    deltas of the chunks before it and one error record that reports the
    failed index, and no chunk after it is read. *)
Theorem stream_chunk_without_choices (up : client) (kwargs : params) (s : stream)
    (pre rest : list chunk) (c : chunk) :
  create_stream up kwargs = inr s ->
  stream_chunks s = pre ++ c :: rest ->
  (forall x, In x pre -> chunk_choices x <> [] /\ signals_finish x = false) ->
  chunk_choices c = [] ->
  emitted (generate_stream up kwargs)
  = content_deltas pre ++
    [EvData (json_error (lit "request failed: list index out of range"))]
  /\ consumed (generate_stream up kwargs) = pre ++ [c].
Proof.
  intros Hup Hs Hpre Hc.
  rewrite generate_stream_emitted, generate_stream_consumed, Hup, Hs.
  destruct (reframe_passes pre (c :: rest) (stream_failure s) Hpre) as [-> ->].
  cbn [reframe]. rewrite Hc. split; reflexivity.
Qed.

Lemma stream_chunk_without_choices_witness :
  let a := simple_chunk (lit "c1") 7 (lit "m") (Some (lit "a")) None in
  let empty := {| chunk_id := lit "c1"; chunk_created := 7; chunk_model := lit "m";
                  chunk_choices := [] |} in
  let s := {| stream_chunks := [a; empty; a]; stream_failure := None |} in
  let up := fixed_client (inl []) (inr s) in
  emitted (generate_stream up demo_params)
  = content_deltas [a] ++
    [EvData (json_error (lit "request failed: list index out of range"))]
  /\ consumed (generate_stream up demo_params) = [a] ++ [empty].
Proof.
  intros a empty s up.
  apply (stream_chunk_without_choices up demo_params s [a] [a] empty).
  - reflexivity.
  - reflexivity.
  - intros x [<- | []]. split; [discriminate | reflexivity].
  - reflexivity.
Defined.

(** X8: the loop tests the truth of [finish_reason], so an empty string
    counts as no finish signal: a stream whose chunks carry no reason or
    an empty one is read to its end, every delta is passed on, and the
    response ends without the sentinel. *)
Theorem stream_empty_finish_reason (up : client) (kwargs : params) (s : stream) :
  create_stream up kwargs = inr s ->
  stream_failure s = None ->
  (forall x, In x (stream_chunks s) ->
     chunk_choices x <> [] /\ (finish_of x = None \/ finish_of x = Some [])) ->
  emitted (generate_stream up kwargs) = content_deltas (stream_chunks s)
  /\ consumed (generate_stream up kwargs) = stream_chunks s
  /\ ends_with_done (emitted (generate_stream up kwargs)) = false.
Proof.
  intros Hup Hfail Hq.
  assert (Hquiet : forall x, In x (stream_chunks s) ->
                     chunk_choices x <> [] /\ signals_finish x = false).
  { intros x Hx. destruct (Hq x Hx) as [Hne Hf]. split; [exact Hne|].
    unfold finish_of in Hf. unfold signals_finish, finish_signalled.
    destruct (chunk_choices x) as [|first others]; [reflexivity|].
    destruct Hf as [-> | ->]; reflexivity. }
  rewrite generate_stream_emitted, generate_stream_consumed, Hup.
  destruct (reframe_exhausted (stream_chunks s) (stream_failure s) Hquiet) as [-> ->].
  rewrite Hfail, app_nil_r. repeat split.
  apply data_events_not_done. intros e. apply content_deltas_data.
Qed.

Lemma stream_empty_finish_reason_witness :
  let a := simple_chunk (lit "c1") 7 (lit "m") (Some (lit "a")) None in
  let b := simple_chunk (lit "c1") 7 (lit "m") (Some (lit "b")) (Some []) in
  let s := {| stream_chunks := [a; b]; stream_failure := None |} in
  let up := fixed_client (inl []) (inr s) in
  emitted (generate_stream up demo_params) = content_deltas [a; b]
  /\ consumed (generate_stream up demo_params) = [a; b]
  /\ ends_with_done (emitted (generate_stream up demo_params)) = false.
Proof.
  intros a b s up.
  apply (stream_empty_finish_reason up demo_params s).
  - reflexivity.
  - reflexivity.
  - intros x [<- | [<- | []]]; (split; [discriminate|]); [now left | now right].
Defined.

(** ** Completion handler: what every request gets *)

Lemma error_response_json (error : pystr) :
  exists status body,
    error_response error = JsonResponse status body /\
    (status = 429 \/ status = 401 \/ status = 500) /\
    (is_quota_error error = true -> status = 429).
Proof.
  unfold error_response. destruct (is_quota_error error).
  - eexists _, _. split; [reflexivity|]. auto.
  - destruct (is_unauthorized_error error);
      (eexists _, _; split; [reflexivity|]; split; [auto | discriminate]).
Qed.

(** The non-streaming call always comes back with an answer that is not
    a stream. *)
Lemma complete_outcome (cfg : config) (up : client) (kwargs : params) :
  exists r,
    complete cfg up kwargs = ([UpstreamCall kwargs; UpstreamDone], Returned r) /\
    forall body, r <> StreamResponse body.
Proof.
  assert (Herr : forall error body, error_response error <> StreamResponse body).
  { intros error body.
    destruct (error_response_json error) as [status [b [-> _]]]. discriminate. }
  unfold complete. destruct (create up kwargs) as [error|result].
  - eexists. split; [reflexivity | apply Herr].
  - destruct (AUTO_TRIM cfg); [|eexists; split; [reflexivity | discriminate]].
    destruct (trim_first_choice result) as [error|trimmed];
      eexists; (split; [reflexivity|]); [apply Herr | discriminate].
Qed.

(** The ways out of the locked section: without an upstream call and
    without a stream; with a stream to be drained later; or through the
    non-streaming call.  The last two need the upstream key. *)
Lemma locked_section_cases (cfg : config) (up : client) (now : Z) (req : request) :
  (fst (locked_section cfg up now req) = [] /\
   forall body, snd (locked_section cfg up now req) <> Returned (StreamResponse body))
  \/ (api_key_missing cfg = false /\
      exists kwargs,
        locked_section cfg up now req
        = ([], Returned (StreamResponse (generate_stream up kwargs)))
        \/ locked_section cfg up now req = complete cfg up kwargs).
Proof.
  unfold locked_section.
  destruct (truthy (request_json req)); cbn [negb];
    [|left; split; [reflexivity | discriminate]].
  destruct (request_json req) as [| | | | |fields];
    try (left; split; [reflexivity | discriminate]).
  destruct (dict_lookup (lit "messages") fields) as [messages|];
    [|left; split; [reflexivity | discriminate]].
  destruct (is_test_request messages) as [[|]|e];
    try (left; split; [reflexivity | discriminate]).
  unfold get_client.
  destruct (api_key_missing cfg); [left; split; [reflexivity | discriminate]|].
  destruct (if PREFILL_ENABLED cfg then inject_prefill cfg messages else Ok messages)
    as [shaped|e]; [|left; split; [reflexivity | discriminate]].
  right. split; [reflexivity|].
  destruct (truthy (dict_get (lit "stream") (JBool false) fields)); eauto.
Qed.

(** X9: when the handler raises, it does so before any upstream call and
    leaves with the lock released: its whole trace is the acquisition and
    the release of the lock. *)
Theorem raising_request_releases_lock (cfg : config) (up : client) (now : Z)
    (req : request) (e : pyexn) :
  snd (normal_operation cfg up now req) = Raised e ->
  fst (normal_operation cfg up now req) = [Acquire; Release]
  /\ serve_normal cfg up now req = [Acquire; Release].
Proof.
  unfold serve_normal, serve, normal_operation, with_lock. cbn [fst snd].
  intros Hraised. rewrite Hraised.
  destruct (locked_section_cases cfg up now req)
    as [[-> _] | [_ [kwargs [H | H]]]]; [auto| |].
  - rewrite H in Hraised. discriminate.
  - destruct (complete_outcome cfg up kwargs) as [r [Hr _]].
    rewrite H, Hr in Hraised. discriminate.
Qed.

Lemma raising_request_releases_lock_witness :
  let req := {| authorization := None;
                request_json := JObj [(lit "messages", JArr [JNull])] |} in
  fst (normal_operation demo_config demo_client 0 req) = [Acquire; Release]
  /\ serve_normal demo_config demo_client 0 req = [Acquire; Release].
Proof.
  intros req.
  apply (raising_request_releases_lock demo_config demo_client 0 req TypeError).
  reflexivity.
Defined.

(** X10: handling a request invokes [client.chat.completions.create]
    at most once, whatever the request, the configuration and the
    upstream's answer, streamed or not: the handler has no retry loop of
    its own.  What the client does inside one invocation is its own
    matter and not part of the trace. *)
Theorem at_most_one_upstream_call (cfg : config) (up : client) (now : Z) (req : request) :
  (List.length (upstream_calls (serve_normal cfg up now req)) <= 1)%nat.
Proof.
  unfold serve_normal, serve, normal_operation, with_lock. cbn [fst snd].
  destruct (locked_section_cases cfg up now req)
    as [[Hfst Hno] | [_ [kwargs [H | H]]]].
  - rewrite Hfst.
    destruct (snd (locked_section cfg up now req)) as [[| | |body]|];
      try (simpl; lia).
    now elim (Hno body).
  - rewrite H. cbn [fst snd app upstream_calls].
    rewrite generate_stream_calls. simpl. lia.
  - destruct (complete_outcome cfg up kwargs) as [r [Hr Hno]].
    rewrite H, Hr. cbn [fst snd].
    destruct r as [| | |body]; try (simpl; lia).
    now elim (Hno body).
Qed.

(** X11: without an upstream key in the configuration no request ever
    reaches the upstream, and no request is answered with a stream. *)
Theorem no_key_no_upstream_call (cfg : config) (up : client) (now : Z) (req : request) :
  api_key_missing cfg = true ->
  upstream_calls (serve_normal cfg up now req) = []
  /\ forall body, snd (normal_operation cfg up now req) <> Returned (StreamResponse body).
Proof.
  intros Hkey.
  unfold serve_normal, serve, normal_operation, with_lock. cbn [fst snd].
  destruct (locked_section_cases cfg up now req)
    as [[Hfst Hno] | [Hk _]]; [|congruence].
  split; [|exact Hno]. rewrite Hfst.
  destruct (snd (locked_section cfg up now req)) as [[| | |body]|];
    try reflexivity.
  now elim (Hno body).
Qed.

Lemma no_key_no_upstream_call_witness :
  let cfg := {| API_ENDPOINT := lit "https://openrouter.ai/api/v1";
                API_KEY := Some []; MODEL := lit "gpt-3.5-turbo";
                PREFILL_ENABLED := true; AUTO_TRIM := true;
                ASSISTANT_PREFILL := lit "Here is my response:" |} in
  upstream_calls (serve_normal cfg demo_client 0 streaming_request) = []
  /\ forall body,
       snd (normal_operation cfg demo_client 0 streaming_request)
       <> Returned (StreamResponse body).
Proof.
  intros cfg.
  apply (no_key_no_upstream_call cfg demo_client 0 streaming_request).
  reflexivity.
Defined.

(** ** Completion handler: requests that reach the upstream *)

Section ReachingUpstream.

Variables (cfg : config) (up : client) (now : Z) (req : request).
Variables (fields : list (pystr * json)) (messages shaped : json).

(** The request has a body with messages, is not the diagnostic one,
    the upstream key is configured and shaping went through. *)
Hypothesis Hjson : request_json req = JObj fields.
Hypothesis Hmessages : dict_lookup (lit "messages") fields = Some messages.
Hypothesis Htest : is_test_request messages = Ok false.
Hypothesis Hkey : api_key_missing cfg = false.
Hypothesis Hshaped :
  (if PREFILL_ENABLED cfg then inject_prefill cfg messages else Ok messages)
  = Ok shaped.

Local Abbreviation is_streaming := (dict_get (lit "stream") (JBool false) fields).
Local Abbreviation kwargs := (build_params cfg fields shaped is_streaming).

Lemma locked_section_reaches :
  locked_section cfg up now req
  = if truthy is_streaming
    then ([], Returned (StreamResponse (generate_stream up kwargs)))
    else complete cfg up kwargs.
Proof.
  unfold locked_section, get_client. rewrite Hjson.
  destruct fields as [|field fields']; [discriminate|].
  cbn [truthy negb]. now rewrite Hmessages, Htest, Hkey, Hshaped.
Qed.

(** X12: a request whose [stream] field is truthy is always answered
    with a stream, status 200, before the upstream is contacted: whether
    the upstream then answers, fails or runs out of quota only shows in
    the records of the stream. *)
Theorem streaming_request_gets_stream :
  truthy is_streaming = true ->
  normal_operation cfg up now req
  = ([Acquire; Release], Returned (StreamResponse (generate_stream up kwargs)))
  /\ http_status (snd (normal_operation cfg up now req)) = 200
  /\ (forall error,
        create_stream up kwargs = inl error ->
        emitted (serve_normal cfg up now req) = [error_event error]).
Proof.
  intros Hstream.
  assert (Hop : normal_operation cfg up now req
                = ([Acquire; Release],
                   Returned (StreamResponse (generate_stream up kwargs)))).
  { unfold normal_operation. now rewrite locked_section_reaches, Hstream. }
  split; [exact Hop|]. split; [now rewrite Hop|].
  intros error Herror. unfold serve_normal, serve. rewrite Hop.
  cbn [fst snd app emitted]. now rewrite generate_stream_emitted, Herror.
Qed.

(** X13: when the non-streaming upstream call raises, the handler does not:
    it answers with a JSON error of status 429, 401 or 500, 429 when
    the error text mentions 429 or a quota, after exactly one call made
    under the lock. *)
Theorem upstream_error_is_answered (error : pystr) :
  truthy is_streaming = false ->
  create up kwargs = inl error ->
  exists status body,
    normal_operation cfg up now req
    = ([Acquire; UpstreamCall kwargs; UpstreamDone; Release],
       Returned (JsonResponse status body))
    /\ (status = 429 \/ status = 401 \/ status = 500)
    /\ (is_quota_error error = true -> status = 429)
    /\ (is_quota_error error = false -> is_unauthorized_error error = false ->
        status = 500 /\ body = json_error error).
Proof.
  intros Hstream Herror.
  unfold normal_operation. rewrite locked_section_reaches, Hstream.
  unfold complete, with_lock. rewrite Herror. cbn [fst snd app].
  unfold error_response.
  destruct (is_quota_error error).
  - eexists _, _. split; [reflexivity|]. repeat split; auto; discriminate.
  - destruct (is_unauthorized_error error); eexists _, _;
      (split; [reflexivity|]); repeat split; auto; discriminate.
Qed.

(** X14: auto-trim rewrites the content of the first choice and nothing
    else: with [AUTO_TRIM] off the upstream's completion is returned as
    it came; with it on, the first choice's content is replaced by its
    trimmed text while the other choices, the role, the finish reason,
    the id, the model and the usage are the upstream's. *)
Theorem auto_trim_touches_first_content (result : completion) :
  truthy is_streaming = false ->
  create up kwargs = inr result ->
  (AUTO_TRIM cfg = false ->
   snd (normal_operation cfg up now req) = Returned (CompletionResponse result))
  /\ (AUTO_TRIM cfg = true -> completion_choices result = [] ->
      snd (normal_operation cfg up now req) = Returned (CompletionResponse result))
  /\ (forall first others text,
        AUTO_TRIM cfg = true ->
        completion_choices result = first :: others ->
        msg_content (choice_message first) = Some text ->
        snd (normal_operation cfg up now req)
        = Returned (CompletionResponse
            {| completion_id := completion_id result;
               completion_created := completion_created result;
               completion_model := completion_model result;
               completion_choices :=
                 {| choice_index := choice_index first;
                    choice_message :=
                      {| msg_role := msg_role (choice_message first);
                         msg_content := Some (trim_to_end_sentence text false) |};
                    choice_finish_reason := choice_finish_reason first |}
                 :: others;
               completion_usage := completion_usage result |})).
Proof.
  intros Hstream Hresult.
  unfold normal_operation. rewrite locked_section_reaches, Hstream.
  unfold complete, with_lock. rewrite Hresult. cbn [fst snd].
  split; [|split].
  - now intros ->.
  - intros -> Hnone. unfold trim_first_choice. now rewrite Hnone.
  - intros first others text -> Hchoices Hcontent.
    unfold trim_first_choice. now rewrite Hchoices, Hcontent.
Qed.

(** X15: with [AUTO_TRIM] on, a completion whose first choice has no
    content (a null [content]) is not passed on: trimming it fails, and
    the request is answered with status 500 and the text of that
    failure. *)
Theorem null_content_is_a_500 (result : completion) (first : choice)
    (others : list choice) :
  truthy is_streaming = false ->
  create up kwargs = inr result ->
  AUTO_TRIM cfg = true ->
  completion_choices result = first :: others ->
  msg_content (choice_message first) = None ->
  normal_operation cfg up now req
  = ([Acquire; UpstreamCall kwargs; UpstreamDone; Release],
     Returned (JsonResponse 500
                 (json_error (lit "'NoneType' object has no attribute 'rfind'")))).
Proof.
  intros Hstream Hresult Htrim Hchoices Hcontent.
  unfold normal_operation. rewrite locked_section_reaches, Hstream.
  unfold complete, with_lock. rewrite Hresult, Htrim. cbn [fst snd app].
  unfold trim_first_choice. now rewrite Hchoices, Hcontent.
Qed.

(** X16: without prefill the message list is sent as it was received,
    and each of [model], [temperature], [max_tokens] and [top_p] is the
    request's own value when the key is present, even a null, and
    otherwise the default: the configured model, 0.9, 2048 and 0.9. *)
Theorem request_parameters_and_defaults :
  PREFILL_ENABLED cfg = false ->
  let given key default :=
    match dict_lookup (lit key) fields with
    | Some value => value
    | None => default
    end in
  upstream_calls (serve_normal cfg up now req)
  = [{| p_messages := messages;
        p_model := given "model"%string (JStr (MODEL cfg));
        p_temperature := given "temperature"%string (JNum (9 # 10));
        p_max_tokens := given "max_tokens"%string (JNum (inject_Z 2048));
        p_stream := given "stream"%string (JBool false);
        p_top_p := given "top_p"%string (JNum (9 # 10)) |}].
Proof.
  intros Hprefill given.
  assert (Hsame : shaped = messages).
  { rewrite Hprefill in Hshaped. congruence. }
  unfold serve_normal, serve, normal_operation, with_lock.
  rewrite locked_section_reaches. subst shaped.
  destruct (truthy is_streaming).
  - cbn [fst snd app upstream_calls]. now rewrite generate_stream_calls.
  - destruct (complete_outcome cfg up (build_params cfg fields messages is_streaming))
      as [r [Hr Hno]].
    rewrite Hr. cbn [fst snd].
    destruct r as [| | |body]; try reflexivity. now elim (Hno body).
Qed.

End ReachingUpstream.

(** X12 on the sample streaming request, with an upstream out of quota. *)
Lemma streaming_request_gets_stream_witness :
  let up := fixed_client (inl (lit "unused")) (inl (lit "Error code: 429")) in
  http_status (snd (normal_operation demo_config up 0 streaming_request)) = 200
  /\ emitted (serve_normal demo_config up 0 streaming_request)
     = [EvData (json_error (lit "out of quota"))].
Proof.
  intros up.
  destruct (streaming_request_gets_stream demo_config up 0 streaming_request
              [(lit "messages",
                JArr [JObj [(lit "role", JStr (lit "user"));
                            (lit "content", JStr (lit "hi"))]]);
               (lit "stream", JBool true)]
              (JArr [JObj [(lit "role", JStr (lit "user"));
                           (lit "content", JStr (lit "hi"))]])
              (JArr [JObj [(lit "role", JStr (lit "user"));
                           (lit "content", JStr (lit "hi"))];
                     prefill_message demo_config])
              eq_refl eq_refl eq_refl eq_refl eq_refl eq_refl)
    as [_ [Hstatus Hevents]].
  split; [exact Hstatus|]. exact (Hevents (lit "Error code: 429") eq_refl).
Defined.

(** X13 on the sample plain request, with an upstream that fails. *)
Lemma upstream_error_is_answered_witness :
  let up := fixed_client (inl (lit "connection refused")) (inl (lit "unused")) in
  exists status body,
    normal_operation demo_config up 0 plain_request
    = ([Acquire;
        UpstreamCall (build_params demo_config (plain_fields) plain_shaped
                        (dict_get (lit "stream") (JBool false) plain_fields));
        UpstreamDone; Release],
       Returned (JsonResponse status body))
    /\ (status = 429 \/ status = 401 \/ status = 500)
    /\ (is_quota_error (lit "connection refused") = true -> status = 429)
    /\ (is_quota_error (lit "connection refused") = false ->
        is_unauthorized_error (lit "connection refused") = false ->
        status = 500 /\ body = json_error (lit "connection refused")).
Proof.
  intros up.
  apply (upstream_error_is_answered demo_config up 0 plain_request
           plain_fields plain_messages plain_shaped
           eq_refl eq_refl eq_refl eq_refl eq_refl (lit "connection refused")
           eq_refl eq_refl).
Defined.

(** X14 on a completion that stops in the middle of a sentence. *)
Lemma auto_trim_touches_first_content_witness :
  let result := demo_completion (Some (lit "One sentence. Incomplete cut off")) in
  let up := fixed_client (inr result) (inl (lit "unused")) in
  snd (normal_operation demo_config up 0 plain_request)
  = Returned (CompletionResponse (demo_completion (Some (lit "One sentence.")))).
Proof.
  intros result up.
  destruct (auto_trim_touches_first_content demo_config up 0 plain_request
              plain_fields plain_messages plain_shaped
              eq_refl eq_refl eq_refl eq_refl eq_refl result eq_refl eq_refl)
    as [_ [_ Htrim]].
  exact (Htrim _ [] (lit "One sentence. Incomplete cut off") eq_refl eq_refl eq_refl).
Defined.

(** X15 on a completion without content. *)
Lemma null_content_is_a_500_witness :
  let up := fixed_client (inr (demo_completion None)) (inl (lit "unused")) in
  http_status (snd (normal_operation demo_config up 0 plain_request)) = 500.
Proof.
  intros up.
  rewrite (null_content_is_a_500 demo_config up 0 plain_request
             plain_fields plain_messages plain_shaped
             eq_refl eq_refl eq_refl eq_refl eq_refl
             (demo_completion None) _ [] eq_refl eq_refl eq_refl eq_refl eq_refl).
  reflexivity.
Defined.

(** X16 on the sample plain request, which names a model and nothing else. *)
Lemma request_parameters_and_defaults_witness :
  let cfg := {| API_ENDPOINT := lit "https://openrouter.ai/api/v1";
                API_KEY := Some (lit "sk-test"); MODEL := lit "gpt-3.5-turbo";
                PREFILL_ENABLED := false; AUTO_TRIM := true;
                ASSISTANT_PREFILL := lit "Here is my response:" |} in
  upstream_calls (serve_normal cfg demo_client 0 plain_request)
  = [{| p_messages := plain_messages;
        p_model := JNull;
        p_temperature := JNum (9 # 10);
        p_max_tokens := JNum (inject_Z 2048);
        p_stream := JBool false;
        p_top_p := JNum (9 # 10) |}].
Proof.
  intros cfg.
  apply (request_parameters_and_defaults cfg demo_client 0 plain_request
           plain_fields plain_messages plain_messages
           eq_refl eq_refl eq_refl eq_refl eq_refl eq_refl).
Defined.

(** X17 (the lemma [normal_operation_sends_prefilled] above) on the
    sample plain request: the single upstream call carries the user
    message followed by the assistant prefill. *)
Lemma normal_operation_sends_prefilled_witness :
  upstream_calls (serve_normal demo_config demo_client 0 plain_request)
  = [build_params demo_config plain_fields plain_shaped
       (dict_get (lit "stream") (JBool false) plain_fields)].
Proof.
  apply (normal_operation_sends_prefilled demo_config demo_client 0 plain_request
           plain_fields plain_messages plain_shaped);
    reflexivity.
Defined.

(** X18 (the lemma [non_streaming_requests_serialised] above) on two
    plain requests, the second one calling the upstream after the first
    has left the locked section. *)
Lemma non_streaming_requests_serialised_witness :
  match run [0; 0; 0; 0; 1; 1]%nat
          (start (map (serve_normal demo_config demo_client 0)
                      [plain_request; plain_request])) with
  | Some sys => (calls_in_flight sys <= 1)%nat
  | None => False
  end.
Proof.
  destruct (run [0; 0; 0; 0; 1; 1]%nat
              (start (map (serve_normal demo_config demo_client 0)
                          [plain_request; plain_request]))) as [sys|] eqn:E.
  - apply (non_streaming_requests_serialised demo_config demo_client 0
             [plain_request; plain_request] [0; 0; 0; 0; 1; 1]%nat sys);
      [|exact E].
    intros req body [<- | [<- | []]]; discriminate.
  - vm_compute in E. discriminate.
Defined.

(** X19 (the lemma [streaming_call_follows_release] above) on the sample
    streaming request. *)
Lemma streaming_call_follows_release_witness :
  exists kwargs rest,
    serve_normal demo_config demo_client 0 streaming_request
    = Acquire :: Release :: UpstreamCall kwargs :: rest.
Proof.
  eapply (streaming_call_follows_release demo_config demo_client 0 streaming_request).
  reflexivity.
Defined.

(** ** Request shaping: edge cases of the prefill and of the test probe *)

(** X20: what makes prefill injection fail.  An empty message list raises
    [IndexError]; a last message that is not an object raises [TypeError];
    one without [role] raises [KeyError]; one with a role other than
    ["user"] raises [KeyError] without [content] and [TypeError] when its
    content is neither a string nor a list.  The failure leaves the
    handler as it is, once the lock is released, with no upstream call. *)
Theorem inject_prefill_failures (cfg : config) (before : list json) :
  inject_prefill cfg (JArr []) = Raise IndexError
  /\ (forall last,
        (forall fields, last <> JObj fields) ->
        inject_prefill cfg (JArr (before ++ [last])) = Raise TypeError)
  /\ (forall fields,
        dict_lookup (lit "role") fields = None ->
        inject_prefill cfg (JArr (before ++ [JObj fields])) = Raise KeyError)
  /\ (forall fields role,
        dict_lookup (lit "role") fields = Some role ->
        eq_str role (lit "user") = false ->
        dict_lookup (lit "content") fields = None ->
        inject_prefill cfg (JArr (before ++ [JObj fields])) = Raise KeyError)
  /\ (forall fields role content,
        dict_lookup (lit "role") fields = Some role ->
        eq_str role (lit "user") = false ->
        dict_lookup (lit "content") fields = Some content ->
        (forall text, content <> JStr text) ->
        (forall items, content <> JArr items) ->
        inject_prefill cfg (JArr (before ++ [JObj fields])) = Raise TypeError)
  /\ (forall up now req fields messages e,
        request_json req = JObj fields ->
        dict_lookup (lit "messages") fields = Some messages ->
        is_test_request messages = Ok false ->
        api_key_missing cfg = false ->
        PREFILL_ENABLED cfg = true ->
        inject_prefill cfg messages = Raise e ->
        normal_operation cfg up now req = ([Acquire; Release], Raised e)).
Proof.
  split; [reflexivity|]. split; [|split; [|split; [|split]]].
  - intros last Hlast. unfold inject_prefill. rewrite getitem_last_snoc.
    destruct last as [| | | | |fields]; try reflexivity. now elim (Hlast fields).
  - intros fields Hrole. unfold inject_prefill. rewrite getitem_last_snoc.
    cbn [bind getitem_key]. now rewrite Hrole.
  - intros fields role Hrole Huser Hcontent.
    unfold inject_prefill. rewrite getitem_last_snoc.
    cbn [bind getitem_key]. rewrite Hrole. cbn [bind]. now rewrite Huser, Hcontent.
  - intros fields role content Hrole Huser Hcontent Hstr Harr.
    unfold inject_prefill. rewrite getitem_last_snoc.
    cbn [bind getitem_key]. rewrite Hrole. cbn [bind]. rewrite Huser, Hcontent.
    cbn [bind]. destruct content as [| | |text|items|]; try reflexivity.
    + now elim (Hstr text).
    + now elim (Harr items).
  - intros up now req fields messages e Hjson Hmessages Htest Hkey Hprefill Hfail.
    unfold normal_operation, locked_section. rewrite Hjson.
    destruct fields as [|field fields']; [discriminate|].
    cbn [truthy negb]. now rewrite Hmessages, Htest, Hkey, Hprefill, Hfail.
Qed.

(** X20 on a last message whose content is null, as a tool call has it. *)
Lemma inject_prefill_failures_witness :
  inject_prefill demo_config
    (JArr ([] ++ [JObj [(lit "role", JStr (lit "assistant")); (lit "content", JNull)]]))
  = Raise TypeError.
Proof.
  apply (proj1 (proj2 (proj2 (proj2 (proj2 (inject_prefill_failures demo_config []))))))
    with (role := JStr (lit "assistant")) (content := JNull);
    try reflexivity; discriminate.
Defined.

(** X21: when the last message is not the user's and its content is a
    list of parts, [+=] does not add one text part: it extends the list
    with one one-character string per character of the newline and the
    prefill text. *)
Theorem inject_prefill_on_list_content (cfg : config) (before : list json)
    (fields : list (pystr * json)) (role : json) (items : list json) :
  dict_lookup (lit "role") fields = Some role ->
  eq_str role (lit "user") = false ->
  dict_lookup (lit "content") fields = Some (JArr items) ->
  exists parts,
    inject_prefill cfg (JArr (before ++ [JObj fields]))
    = Ok (JArr (before ++ [JObj (dict_set (lit "content") (JArr (items ++ parts)) fields)]))
    /\ parts = map (fun c => JStr [c]) (newline :: ASSISTANT_PREFILL cfg)
    /\ List.length parts = S (List.length (ASSISTANT_PREFILL cfg)).
Proof.
  intros Hrole Huser Hcontent. eexists. split; [|split; [reflexivity|]].
  - unfold inject_prefill. rewrite getitem_last_snoc.
    cbn [bind getitem_key]. rewrite Hrole. cbn [bind]. rewrite Huser, Hcontent.
    cbn [bind iadd_str setitem_key]. apply setitem_last_snoc.
  - now rewrite length_map.
Qed.

Lemma inject_prefill_on_list_content_witness :
  exists parts,
    inject_prefill demo_config
      (JArr ([] ++ [JObj [(lit "role", JStr (lit "assistant"));
                          (lit "content", JArr [JStr (lit "x")])]]))
    = Ok (JArr ([] ++ [JObj (dict_set (lit "content") (JArr ([JStr (lit "x")] ++ parts))
                               [(lit "role", JStr (lit "assistant"));
                                (lit "content", JArr [JStr (lit "x")])])]))
    /\ parts = map (fun c => JStr [c]) (newline :: ASSISTANT_PREFILL demo_config)
    /\ List.length parts = S (List.length (ASSISTANT_PREFILL demo_config)).
Proof.
  apply (inject_prefill_on_list_content demo_config []
           [(lit "role", JStr (lit "assistant")); (lit "content", JArr [JStr (lit "x")])]
           (JStr (lit "assistant")) [JStr (lit "x")]);
    reflexivity.
Defined.

(** X22: the diagnostic probe is recognised exactly when the message
    value is a list whose first element is an object with the string
    content ["Just say TEST"]; a first message without [content] raises
    [KeyError], and a failure of the probe leaves the handler as it is,
    whatever the configuration, with the lock released. *)
Theorem is_test_request_spec :
  (forall messages,
      is_test_request messages = Ok true <->
      exists fields rest,
        messages = JArr (JObj fields :: rest) /\
        dict_lookup (lit "content") fields = Some (JStr (lit "Just say TEST")))
  /\ (forall fields rest,
        dict_lookup (lit "content") fields = None ->
        is_test_request (JArr (JObj fields :: rest)) = Raise KeyError)
  /\ (forall cfg up now req fields messages e,
        request_json req = JObj fields ->
        dict_lookup (lit "messages") fields = Some messages ->
        is_test_request messages = Raise e ->
        normal_operation cfg up now req = ([Acquire; Release], Raised e)).
Proof.
  split; [|split].
  - intros messages. split.
    + unfold is_test_request.
      destruct messages as [|b|q|s|items|fields]; try discriminate.
      * destruct (truthy (JBool b)); discriminate.
      * destruct (truthy (JNum q)); discriminate.
      * destruct s; discriminate.
      * destruct items as [|first rest]; [discriminate|].
        cbn [truthy getitem_first bind].
        destruct first as [| | | | |fields]; try discriminate.
        cbn [getitem_key].
        destruct (dict_lookup (lit "content") fields) as [content|] eqn:Hc;
          [|discriminate].
        cbn [bind]. destruct content as [| | |text| |]; try discriminate.
        cbn [eq_str]. intros H. injection H as H.
        apply pystr_eqb_eq in H. subst text. eauto.
      * destruct fields; discriminate.
    + intros [fields [rest [-> Hc]]]. unfold is_test_request.
      cbn [truthy getitem_first bind getitem_key]. rewrite Hc.
      cbn [bind eq_str]. now rewrite pystr_eqb_refl.
  - intros fields rest Hc. unfold is_test_request.
    cbn [truthy getitem_first bind getitem_key]. now rewrite Hc.
  - intros cfg up now req fields messages e Hjson Hmessages Hfail.
    unfold normal_operation, locked_section. rewrite Hjson.
    destruct fields as [|field fields']; [discriminate|].
    cbn [truthy negb]. now rewrite Hmessages, Hfail.
Qed.

(** X22 on a first message that has a role and no content. *)
Lemma is_test_request_spec_witness :
  is_test_request (JArr [JObj [(lit "role", JStr (lit "user"))]; JNull])
  = Raise KeyError.
Proof.
  apply (proj1 (proj2 is_test_request_spec)). reflexivity.
Defined.

(** ** Token gate: the tokens a file yields *)

Lemma lstrip_blank (s : pystr) : forallb is_space s = true -> lstrip s = [].
Proof.
  induction s as [|c s IH]; simpl; [reflexivity|].
  intros H. apply andb_true_iff in H as [Hc Hs]. rewrite Hc. now apply IH.
Qed.

Lemma strip_blank (s : pystr) : forallb is_space s = true -> strip s = [].
Proof.
  intros H. unfold strip, rstrip. rewrite (lstrip_blank (rev s)); [reflexivity|].
  rewrite forallb_forall in *. intros c Hc. apply H. now apply in_rev.
Qed.

Lemma rstrip_snoc_space (s : pystr) (c : char) :
  is_space c = true -> rstrip (s ++ [c]) = rstrip s.
Proof.
  intros H. unfold rstrip. rewrite rev_app_distr. simpl. now rewrite H.
Qed.

Lemma strip_last (s body : pystr) (c : char) :
  strip s = body ++ [c] -> is_space c = false.
Proof.
  unfold strip. intros H.
  destruct (lstrip_suffix (rstrip s)) as [removed [Hr _]].
  rewrite H, app_assoc in Hr. now apply rstrip_last in Hr.
Qed.

Lemma rstrip_of_unspaced (s : pystr) :
  (forall body c, s = body ++ [c] -> is_space c = false) -> rstrip s = s.
Proof.
  intros H. induction s as [|c body _] using rev_ind; [reflexivity|].
  apply rstrip_keeps_last. now apply (H body).
Qed.

Lemma strip_idempotent (s : pystr) : strip (strip s) = strip s.
Proof.
  unfold strip at 1.
  rewrite (rstrip_of_unspaced (strip s)) by (intros body c; apply strip_last).
  unfold strip. apply lstrip_idempotent.
Qed.

(** What lets a request through. *)
Lemma token_gate_passes (file : whitelist_file) (header : option pystr) :
  token_gate file header = None ->
  exists content token,
    file = FileText content /\ header = Some token /\
    token_in token (allowed_tokens content) = true.
Proof.
  unfold token_gate. destruct header as [token|]; [|discriminate].
  destruct (str_truthy token); [|discriminate]. cbn [negb].
  destruct file as [| |content]; try discriminate.
  destruct (token_in token (allowed_tokens content)) eqn:E; [|discriminate].
  intros _. now exists content, token.
Qed.

(** X23: a token the gate accepts is never empty and carries no blank at
    either end, since the lines of the file are stripped before they are
    compared; so a header value that starts or ends with a whitespace
    character is refused whatever the file holds. *)
Theorem accepted_token_is_stripped (file : whitelist_file) :
  (forall header,
      token_gate file header = None ->
      exists token, header = Some token /\ token <> [] /\ strip token = token)
  /\ (forall c token,
        is_space c = true ->
        token_gate file (Some (c :: token)) <> None /\
        token_gate file (Some (token ++ [c])) <> None).
Proof.
  assert (Hstripped : forall header,
             token_gate file header = None ->
             exists token, header = Some token /\ token <> [] /\ strip token = token).
  { intros header Hpass.
    apply token_gate_passes in Hpass as [content [token [_ [-> Hin]]]].
    apply allowed_tokens_spec in Hin as [line [_ [Hne ->]]].
    exists (strip line). repeat split; [exact Hne | apply strip_idempotent]. }
  split; [exact Hstripped|].
  intros c token Hc. split; intros Hpass;
    apply Hstripped in Hpass as [t [Ht [_ Hstrip]]]; injection Ht as <-.
  - apply strip_nonempty_head in Hstrip. congruence.
  - apply strip_last in Hstrip. congruence.
Qed.

(** X23 on a listed token sent with a trailing blank. *)
Lemma accepted_token_is_stripped_witness :
  token_gate (FileText (lit "abc" ++ [newline])) (Some (lit "abc" ++ [32%N])) <> None.
Proof.
  apply (proj2 (accepted_token_is_stripped (FileText (lit "abc" ++ [newline])))
           32%N (lit "abc")).
  reflexivity.
Defined.

Lemma lines_from_line (line text rest : pystr) :
  forallb (fun c => negb (is_line_end c)) text = true ->
  lines_from line (text ++ 10%N :: rest)
  = (line ++ text ++ [newline]) :: lines_from [] rest
  /\ lines_from line (text ++ 13%N :: 10%N :: rest)
     = (line ++ text ++ [newline]) :: lines_from [] rest.
Proof.
  revert line. induction text as [|c text IH]; intros line H.
  - split; reflexivity.
  - simpl in H. apply andb_true_iff in H as [Hc Htext].
    unfold is_line_end in Hc. apply negb_true_iff, orb_false_iff in Hc as [Hlf Hcr].
    destruct (IH (line ++ [c]) Htext) as [IH1 IH2].
    cbn [app lines_from]. rewrite Hlf, Hcr, IH1, IH2.
    rewrite <- !app_assoc. split; reflexivity.
Qed.

Lemma file_lines_written (tokens : list pystr) :
  forallb clean_token tokens = true ->
  file_lines (write_lines [10%N] tokens) = map (fun t => t ++ [newline]) tokens
  /\ file_lines (write_lines [13%N; 10%N] tokens) = map (fun t => t ++ [newline]) tokens.
Proof.
  unfold file_lines, write_lines.
  induction tokens as [|t tokens IH]; intros H; [split; reflexivity|].
  simpl in H. apply andb_true_iff in H as [Ht Hrest].
  unfold clean_token in Ht. apply andb_true_iff in Ht as [_ Hfree].
  destruct (IH Hrest) as [IH1 IH2].
  destruct (lines_from_line [] t (flat_map (fun line => line ++ [10%N]) tokens) Hfree)
    as [H1 _].
  destruct (lines_from_line [] t (flat_map (fun line => line ++ [13%N; 10%N]) tokens) Hfree)
    as [_ H2].
  cbn [flat_map map]. rewrite <- !app_assoc.
  change ([10%N] ++ flat_map (fun line => line ++ [10%N]) tokens)
    with (10%N :: flat_map (fun line => line ++ [10%N]) tokens).
  change ([13%N; 10%N] ++ flat_map (fun line => line ++ [13%N; 10%N]) tokens)
    with (13%N :: 10%N :: flat_map (fun line => line ++ [13%N; 10%N]) tokens).
  split; [rewrite H1 | rewrite H2]; (f_equal; first [assumption | reflexivity]).
Qed.

Lemma allowed_tokens_of_lines (tokens : list pystr) :
  forallb clean_token tokens = true ->
  map strip (filter (fun line => str_truthy (strip line))
                    (map (fun t => t ++ [newline]) tokens)) = tokens.
Proof.
  induction tokens as [|t tokens IH]; intros H; [reflexivity|].
  simpl in H. apply andb_true_iff in H as [Ht Hrest].
  unfold clean_token in Ht. apply andb_true_iff in Ht as [Ht _].
  apply andb_true_iff in Ht as [Hne Hstrip]. apply pystr_eqb_eq in Hstrip.
  assert (Hline : strip (t ++ [newline]) = t).
  { unfold strip. rewrite rstrip_snoc_space by reflexivity. exact Hstrip. }
  cbn [map filter]. rewrite Hline, Hne. cbn [map]. rewrite Hline.
  f_equal. now apply IH.
Qed.

(** X24: after a file is written with one clean token per line, with
    Unix or with Windows line ends, the loaded set holds exactly the
    written tokens: a value is in it if and only if it is one of them,
    however often or in whatever order they were written; the gate then
    lets through the listed tokens and no other. *)
Theorem written_tokens_are_loaded (tokens : list pystr) :
  forallb clean_token tokens = true ->
  (forall token,
      token_in token (allowed_tokens (write_lines [10%N] tokens)) = true
      <-> In token tokens)
  /\ (forall token,
        token_in token (allowed_tokens (write_lines [13%N; 10%N] tokens)) = true
        <-> In token tokens)
  /\ (forall token,
        token_gate (FileText (write_lines [10%N] tokens)) (Some token) = None
        <-> In token tokens)
  /\ (forall token,
        token_gate (FileText (write_lines [13%N; 10%N] tokens)) (Some token) = None
        <-> In token tokens).
Proof.
  intros H. destruct (file_lines_written tokens H) as [Hlf Hcrlf].
  assert (Hmember : forall token, token_in token tokens = true <-> In token tokens).
  { intros token. unfold token_in. rewrite existsb_exists. split.
    - intros [t [Hin Heq]]. apply pystr_eqb_eq in Heq. now subst.
    - intros Hin. exists token. split; [exact Hin | apply pystr_eqb_refl]. }
  assert (Hgate : forall content,
             allowed_tokens content = tokens ->
             forall token,
               token_gate (FileText content) (Some token) = None <-> In token tokens).
  { intros content Hloaded token. unfold token_gate. rewrite Hloaded. split.
    - destruct (str_truthy token); [|discriminate]. cbn [negb].
      destruct (token_in token tokens) eqn:E; [|discriminate].
      intros _. now apply Hmember.
    - intros Hin.
      assert (Hne : str_truthy token = true).
      { rewrite forallb_forall in H. specialize (H token Hin).
        unfold clean_token in H. apply andb_true_iff in H as [H _].
        now apply andb_true_iff in H as [H _]. }
      rewrite Hne. cbn [negb].
      apply Hmember in Hin. now rewrite Hin. }
  assert (Hloaded_lf : allowed_tokens (write_lines [10%N] tokens) = tokens).
  { unfold allowed_tokens. rewrite Hlf. now apply allowed_tokens_of_lines. }
  assert (Hloaded_crlf : allowed_tokens (write_lines [13%N; 10%N] tokens) = tokens).
  { unfold allowed_tokens. rewrite Hcrlf. now apply allowed_tokens_of_lines. }
  split; [|split; [|split]].
  - intros token. rewrite Hloaded_lf. apply Hmember.
  - intros token. rewrite Hloaded_crlf. apply Hmember.
  - now apply Hgate.
  - now apply Hgate.
Qed.

(** X24 on a file with Windows line ends in which one token is written
    twice: both listed tokens pass. *)
Lemma written_tokens_are_loaded_witness :
  let tokens := [lit "alpha"; lit "Bearer beta"; lit "alpha"] in
  token_gate (FileText (write_lines [13%N; 10%N] tokens)) (Some (lit "alpha")) = None
  /\ token_gate (FileText (write_lines [13%N; 10%N] tokens)) (Some (lit "Bearer beta"))
     = None.
Proof.
  intros tokens.
  destruct (written_tokens_are_loaded tokens eq_refl) as [_ [_ [_ Hgate]]].
  split; apply Hgate; simpl; tauto.
Defined.

Lemma lines_from_blank (n : nat) :
  forall rest line,
    (List.length rest <= n)%nat ->
    forallb is_space line = true ->
    forallb is_space rest = true ->
    forall l, In l (lines_from line rest) -> forallb is_space l = true.
Proof.
  induction n as [|n IH]; intros rest line Hlen Hline Hrest l Hin;
    destruct rest as [|c rest'];
    try (destruct line; simpl in Hin; [contradiction | destruct Hin as [<- | []]];
         exact Hline);
    [simpl in Hlen; lia|].
  simpl in Hlen, Hrest. apply andb_true_iff in Hrest as [Hc Hrest'].
  assert (Hnl : forallb is_space (line ++ [newline]) = true).
  { rewrite forallb_app, Hline. reflexivity. }
  cbn [lines_from] in Hin. destruct (N.eqb c 10).
  - destruct Hin as [<- | Hin]; [exact Hnl|].
    apply (IH rest' []); auto; lia.
  - destruct (N.eqb c 13).
    + destruct Hin as [<- | Hin]; [exact Hnl|].
      destruct rest' as [|d rest'']; [apply (IH [] []); auto; simpl; lia|].
      simpl in Hlen, Hrest'. apply andb_true_iff in Hrest' as [Hd Hrest''].
      destruct (N.eqb d 10).
      * apply (IH rest'' []); auto; lia.
      * apply (IH (d :: rest'') []); auto; simpl; [lia | now rewrite Hd].
    + apply (IH rest' (line ++ [c])); auto; [lia|].
      rewrite forallb_app, Hline. simpl. now rewrite Hc.
Qed.

(** X25: a file that holds nothing but whitespace, the empty file
    included, yields no token: every request that brings a token is
    refused as invalid, none is let through. *)
Theorem blank_file_admits_nobody (content : pystr) :
  forallb is_space content = true ->
  allowed_tokens content = []
  /\ forall token,
       token <> [] ->
       token_gate (FileText content) (Some token)
       = Some (Returned (JsonResponse 401
                 (json_error (lit "Unauthorized - invalid API key")))).
Proof.
  intros Hblank.
  assert (Hnone : allowed_tokens content = []).
  { unfold allowed_tokens, file_lines.
    assert (Hlines : forall l, In l (lines_from [] content) ->
                       str_truthy (strip l) = false).
    { intros l Hin. rewrite strip_blank; [reflexivity|].
      now apply (lines_from_blank (List.length content) content [] (le_n _) eq_refl Hblank). }
    induction (lines_from [] content) as [|l ls IH]; [reflexivity|].
    simpl. rewrite (Hlines l (or_introl eq_refl)).
    apply IH. intros l' Hl'. apply Hlines. now right. }
  split; [exact Hnone|].
  intros token Hne. unfold token_gate. rewrite Hnone.
  destruct token; [contradiction | reflexivity].
Qed.

Lemma blank_file_admits_nobody_witness :
  allowed_tokens (lit "  " ++ [13; 10; 9; 10]%N) = []
  /\ token_gate (FileText (lit "  " ++ [13; 10; 9; 10]%N)) (Some (lit "abc"))
     = Some (Returned (JsonResponse 401
               (json_error (lit "Unauthorized - invalid API key")))).
Proof.
  destruct (blank_file_admits_nobody (lit "  " ++ [13; 10; 9; 10]%N) eq_refl)
    as [Hnone Hgate].
  split; [exact Hnone|]. apply Hgate. discriminate.
Defined.

(** ** Model listing *)

(** X26: the model listing always answers with a JSON body and one of
    the statuses 200, 401, 429 and 500; it answers 200 only with the
    upstream's own listing, and without an upstream key it answers 401
    whatever the upstream would have said. *)
Theorem model_check_answers (cfg : config) (up : client)
    (list_models : client -> pystr + json) :
  (exists status body,
      model_check cfg up list_models = JsonResponse status body /\
      (status = 200 \/ status = 401 \/ status = 429 \/ status = 500) /\
      (status = 200 -> api_key_missing cfg = false /\ list_models up = inr body))
  /\ (api_key_missing cfg = true ->
      model_check cfg up list_models
      = JsonResponse 401 (json_error (lit "API key not found in environment variables"))).
Proof.
  unfold model_check, get_client. destruct (api_key_missing cfg).
  - split; [|reflexivity].
    eexists _, _. split; [reflexivity|]. split; [auto | discriminate].
  - split; [|discriminate].
    destruct (list_models up) as [error|models].
    + destruct (is_unauthorized_error error);
        [|destruct (is_quota_error error)];
        (eexists _, _; split; [reflexivity|]; split; [auto | discriminate]).
    + eexists _, _. split; [reflexivity|]. auto.
Qed.

Lemma model_check_answers_witness :
  let cfg := {| API_ENDPOINT := lit "https://openrouter.ai/api/v1";
                API_KEY := None; MODEL := lit "gpt-3.5-turbo";
                PREFILL_ENABLED := false; AUTO_TRIM := true;
                ASSISTANT_PREFILL := [] |} in
  model_check cfg demo_client (fun _ => inr (JArr []))
  = JsonResponse 401 (json_error (lit "API key not found in environment variables")).
Proof.
  intros cfg.
  apply (proj2 (model_check_answers cfg demo_client (fun _ => inr (JArr [])))).
  reflexivity.
Defined.

(** X27: the two handlers rank the error patterns differently.  An
    upstream error whose text matches both the unauthorized and the quota
    pattern is answered 401 by the model listing and 429 by the
    completion handler. *)
Theorem error_precedence_differs (cfg : config) (up : client)
    (list_models : client -> pystr + json) (kwargs : params) (error : pystr) :
  api_key_missing cfg = false ->
  list_models up = inl error ->
  create up kwargs = inl error ->
  is_unauthorized_error error = true ->
  is_quota_error error = true ->
  model_check cfg up list_models
  = JsonResponse 401 (json_error (lit "Unauthorized - check your API key"))
  /\ snd (complete cfg up kwargs)
     = Returned (JsonResponse 429
                   (JObj [(lit "status", JBool false);
                          (lit "error", JStr (lit "out of quota"))])).
Proof.
  intros Hkey Hlist Hcreate Hunauth Hquota. split.
  - unfold model_check, get_client. now rewrite Hkey, Hlist, Hunauth.
  - unfold complete, error_response. cbn [snd]. now rewrite Hcreate, Hquota.
Qed.

Lemma error_precedence_differs_witness :
  let error := lit "Error code: 401 - quota exceeded" in
  let up := fixed_client (inl error) (inl error) in
  model_check demo_config up (fun _ => inl error)
  = JsonResponse 401 (json_error (lit "Unauthorized - check your API key"))
  /\ snd (complete demo_config up demo_params)
     = Returned (JsonResponse 429
                   (JObj [(lit "status", JBool false);
                          (lit "error", JStr (lit "out of quota"))])).
Proof.
  intros error up.
  apply (error_precedence_differs demo_config up (fun _ => inl error) demo_params error);
    reflexivity.
Defined.

(** ** The lock is always given back *)

Lemma lock_balanced_skip (holding : bool) (quiet rest : list action) :
  forallb (fun a => negb (is_lock_action a)) quiet = true ->
  lock_balanced holding (quiet ++ rest) = lock_balanced holding rest.
Proof.
  induction quiet as [|a quiet IH]; intros H; [reflexivity|].
  simpl in H. apply andb_true_iff in H as [Ha Hq].
  destruct a; try discriminate; simpl; now apply IH.
Qed.

Lemma reframe_lock_free (chunks : list chunk) (failure : option pystr) :
  forallb (fun a => negb (is_lock_action a)) (reframe chunks failure) = true.
Proof.
  induction chunks as [|c chunks IH]; simpl.
  - now destruct failure.
  - destruct (chunk_choices c) as [|first others]; [reflexivity|].
    rewrite forallb_app.
    destruct (delta_content first); destruct (finish_signalled first);
      simpl; auto.
Qed.

Lemma generate_stream_lock_free (up : client) (kwargs : params) :
  forallb (fun a => negb (is_lock_action a)) (generate_stream up kwargs) = true.
Proof.
  unfold generate_stream. simpl.
  destruct (create_stream up kwargs) as [error|s]; [reflexivity|].
  apply reframe_lock_free.
Qed.

(** Every request takes the lock once and gives it back. *)
Lemma serve_normal_balanced (cfg : config) (up : client) (now : Z) (req : request) :
  lock_balanced false (serve_normal cfg up now req) = true.
Proof.
  unfold serve_normal, serve, normal_operation, with_lock. cbn [fst snd].
  destruct (locked_section_cases cfg up now req)
    as [[Hfst Hno] | [_ [kwargs [H | H]]]].
  - rewrite Hfst.
    destruct (snd (locked_section cfg up now req)) as [[| | |body]|];
      try reflexivity.
    now elim (Hno body).
  - rewrite H. cbn [fst snd app lock_balanced negb andb].
    rewrite <- (app_nil_r (generate_stream up kwargs)).
    now rewrite lock_balanced_skip by apply generate_stream_lock_free.
  - destruct (complete_outcome cfg up kwargs) as [r [Hr Hno]].
    rewrite H, Hr. cbn [fst snd].
    destruct r as [| | |body]; try reflexivity. now elim (Hno body).
Qed.

Lemma step_lock_consistent (sys sys' : system) (i : nat) :
  lock_consistent sys -> step sys i = Some sys' -> lock_consistent sys'.
Proof.
  intros [Hall Hcount]. unfold step.
  destruct (nth_error (threads sys) i) as [t|] eqn:Hi; [|discriminate].
  pose proof (nth_error_Forall _ i t (threads sys) Hall Hi) as Hb.
  cbv beta in Hb.
  pose proof (replace_nth_count holds_lock i) as Hrep.
  unfold step_thread.
  destruct (todo t) as [|a rest] eqn:Htodo; [discriminate|].
  destruct a; cbn [lock_balanced] in Hb.
  - destruct (lock_held sys) eqn:Hl; [discriminate|].
    intros H. injection H as <-. apply andb_true_iff in Hb as [Hnh Hb].
    apply negb_true_iff in Hnh.
    split; cbn [threads lock_held].
    + apply replace_nth_Forall; [exact Hall | exact Hb].
    + holders_after Hrep t Hi Hr. rewrite Hnh in Hr. cbn [holds_lock] in Hr. lia.
  - intros H. injection H as <-. apply andb_true_iff in Hb as [Hh Hb].
    pose proof (holder_counted i t (threads sys) Hi Hh) as Hone.
    split; cbn [threads lock_held].
    + apply replace_nth_Forall; [exact Hall | exact Hb].
    + holders_after Hrep t Hi Hr. rewrite Hh in Hr. cbn [holds_lock] in Hr.
      destruct (lock_held sys); lia.
  - intros H. injection H as <-. split; cbn [threads lock_held].
    + apply replace_nth_Forall; [exact Hall | exact Hb].
    + holders_after Hrep t Hi Hr. cbn [holds_lock] in Hr.
      destruct (holds_lock t); lia.
  - intros H. injection H as <-. split; cbn [threads lock_held].
    + apply replace_nth_Forall; [exact Hall | exact Hb].
    + holders_after Hrep t Hi Hr. cbn [holds_lock] in Hr.
      destruct (holds_lock t); lia.
  - intros H. injection H as <-. split; cbn [threads lock_held].
    + apply replace_nth_Forall; [exact Hall | exact Hb].
    + holders_after Hrep t Hi Hr. cbn [holds_lock] in Hr.
      destruct (holds_lock t); lia.
  - intros H. injection H as <-. split; cbn [threads lock_held].
    + apply replace_nth_Forall; [exact Hall | exact Hb].
    + holders_after Hrep t Hi Hr. cbn [holds_lock] in Hr.
      destruct (holds_lock t); lia.
Qed.

Lemma run_lock_consistent (schedule : list nat) (sys sys' : system) :
  lock_consistent sys -> run schedule sys = Some sys' -> lock_consistent sys'.
Proof.
  revert sys. induction schedule as [|i schedule IH]; intros sys Hs; simpl.
  - intros H. now injection H as <-.
  - destruct (step sys i) as [sys1|] eqn:E; [|discriminate].
    apply IH. eapply step_lock_consistent; eauto.
Qed.

Lemma start_lock_consistent (programs : list (list action)) :
  forallb (lock_balanced false) programs = true -> lock_consistent (start programs).
Proof.
  intros H. unfold lock_consistent, start. cbn [threads lock_held].
  induction programs as [|p programs IH]; simpl.
  - split; [constructor | reflexivity].
  - simpl in H. apply andb_true_iff in H as [Hp Hrest].
    destruct (IH Hrest) as [Hall Hcount]. split; [|exact Hcount].
    constructor; [exact Hp | exact Hall].
Qed.

Lemma find_thread (f : thread -> bool) (ts : list thread) :
  (1 <= List.length (filter f ts))%nat ->
  exists i t, nth_error ts i = Some t /\ f t = true.
Proof.
  induction ts as [|x ts IH]; simpl; [lia|].
  destruct (f x) eqn:E.
  - intros _. now exists 0%nat, x.
  - intros H. destruct (IH H) as [i [t [Hi Ht]]]. now exists (S i), t.
Qed.

Lemma find_unfinished (ts : list thread) :
  forallb (fun t => match todo t with [] => true | _ => false end) ts = false ->
  exists i t a rest, nth_error ts i = Some t /\ todo t = a :: rest.
Proof.
  induction ts as [|x ts IH]; simpl; [discriminate|].
  destruct (todo x) as [|a rest] eqn:E.
  - intros H. destruct (IH H) as [i [t [b [r [Hi Ht]]]]].
    now exists (S i), t, b, r.
  - intros _. now exists 0%nat, x, a, rest.
Qed.

(** X28: requests never block each other for good.  In every state that
    serving any requests, streaming or not, can reach, at most one thread
    holds the lock; as long as some thread has work left some thread can
    take a step; and once all have finished the lock is free. *)
Theorem requests_never_deadlock (cfg : config) (up : client) (now : Z)
    (reqs : list request) (schedule : list nat) (sys : system) :
  run schedule (start (map (serve_normal cfg up now) reqs)) = Some sys ->
  (List.length (filter holds_lock (threads sys)) <= 1)%nat
  /\ (finished sys = false -> exists i sys', step sys i = Some sys')
  /\ (finished sys = true -> lock_held sys = false).
Proof.
  intros Hrun.
  assert (Hcons : lock_consistent sys).
  { eapply run_lock_consistent; [|exact Hrun].
    apply start_lock_consistent, forallb_forall. intros p Hp.
    apply in_map_iff in Hp as [req [<- _]]. apply serve_normal_balanced. }
  destruct Hcons as [Hall Hcount]. split; [|split].
  - destruct (lock_held sys); lia.
  - intros Hunfinished. destruct (lock_held sys) eqn:Hl.
    + destruct (find_thread holds_lock (threads sys)) as [i [t [Hi Hh]]]; [lia|].
      pose proof (nth_error_Forall _ i t (threads sys) Hall Hi) as Hb.
      cbv beta in Hb. rewrite Hh in Hb.
      exists i. unfold step, step_thread. rewrite Hi, Hl.
      destruct (todo t) as [|a rest]; [discriminate|].
      destruct a; try discriminate; eauto.
    + destruct (find_unfinished (threads sys) Hunfinished)
        as [i [t [a [rest [Hi Ht]]]]].
      exists i. unfold step, step_thread. rewrite Hi, Hl, Ht.
      destruct a; eauto.
  - intros Hfinished. destruct (lock_held sys); [|reflexivity].
    destruct (find_thread holds_lock (threads sys)) as [i [t [Hi Hh]]]; [lia|].
    pose proof (nth_error_Forall _ i t (threads sys) Hall Hi) as Hb.
    cbv beta in Hb. rewrite Hh in Hb.
    unfold finished in Hfinished. rewrite forallb_forall in Hfinished.
    specialize (Hfinished t (nth_error_In _ _ Hi)).
    destruct (todo t); discriminate.
Qed.

(** X28 on a plain and a streaming request, stopped while the first holds
    the lock and the second waits for it. *)
Lemma requests_never_deadlock_witness :
  match run [0; 0]%nat
          (start (map (serve_normal demo_config demo_client 0)
                      [plain_request; streaming_request])) with
  | Some sys =>
      (List.length (filter holds_lock (threads sys)) <= 1)%nat
      /\ (finished sys = false -> exists i sys', step sys i = Some sys')
      /\ (finished sys = true -> lock_held sys = false)
  | None => False
  end.
Proof.
  destruct (run [0; 0]%nat
              (start (map (serve_normal demo_config demo_client 0)
                          [plain_request; streaming_request]))) as [sys|] eqn:E.
  - exact (requests_never_deadlock demo_config demo_client 0
             [plain_request; streaming_request] [0; 0]%nat sys E).
  - vm_compute in E. discriminate.
Defined.
